(** * Soft real-time preemptive scheduler plug-ins: model and properties

    A shallow embedding of the deadline-ordered queue sort ([pkg/deadline]),
    and of the pause/resume based EDF plug-in ([pkg/rtpreemptive]) with its
    deadline manager, preemption manager and execution-time predictor,
    followed by the properties of the design document checked against it.

    Layout: the Go runtime fragments the code relies on, the API objects,
    one module per Go package, then the theorems. *)

From Stdlib Require Import ZArith String Ascii List Lia PrimFloat.
From stdpp Require Import gmap strings list fin_maps.

Open Scope Z_scope.

(* ===================================================================== *)
(** ** Go runtime fragments *)
(* ===================================================================== *)

Module Go.

(** [time.Time] is an instant; it is kept as the number of nanoseconds
    since the zero Time (January 1, year 1, 00:00:00 UTC), so that
    [IsZero] is comparison with 0.  [time.Duration] is a nanosecond
    count.  Location and the monotonic reading play no role in [Equal],
    [Before] and [After], which compare instants. *)
Abbreviation Time := Z (only parsing).
Abbreviation Duration := Z (only parsing).

Definition Nanosecond : Duration := 1.
Definition Microsecond : Duration := 1000 * Nanosecond.
Definition Millisecond : Duration := 1000 * Microsecond.
Definition Second : Duration := 1000 * Millisecond.
Definition Minute : Duration := 60 * Second.
Definition Hour : Duration := 60 * Minute.

Definition IsZero (t : Time) : bool := t =? 0.
Definition Add (t : Time) (d : Duration) : Time := t + d.
Definition Equal (t u : Time) : bool := t =? u.
Definition Before (t u : Time) : bool := t <? u.
Definition After (t u : Time) : bool := t >? u.

(** [strings.Split(s, sep)] for a one-byte separator: the pieces between
    the occurrences of [sep]; one more piece than there are separators,
    so splitting the empty string gives the one-element list holding the
    empty string. *)
Fixpoint Split (s : string) (sep : ascii) : list string :=
  match s with
  | EmptyString => [EmptyString]
  | String c rest =>
      if Ascii.eqb c sep then EmptyString :: Split rest sep
      else match Split rest sep with
           | piece :: pieces => String c piece :: pieces
           | [] => [String c EmptyString]
           end
  end.

(** [strings.Count(s, sep)] for a one-byte separator. *)
Fixpoint Count (s : string) (sep : ascii) : nat :=
  match s with
  | EmptyString => O
  | String c rest => (if Ascii.eqb c sep then 1 else 0) + Count rest sep
  end%nat.

(** [strings.Contains(s, sep)] for a one-byte [sep]. *)
Definition Contains (s : string) (sep : ascii) : bool :=
  negb (Nat.eqb (Count s sep) 0).

(** [len(s)] of a string, as a Go [int]. *)
Definition len (s : string) : Z := Z.of_nat (String.length s).

(** A map value: [None] is the nil map.  Reading a nil map finds nothing;
    assigning into it panics (see [preemption.markPodToPaused]). *)
Definition index (m : option (gmap string string)) (k : string) : option string :=
  match m with
  | None => None
  | Some entries => entries !! k
  end.

(** Errors.  Sentinel values are compared by identity in the sources
    ([err == preemption.ErrPodNotPaused]), so they are constructors;
    [Errorf] is [fmt.Errorf] with one wrapped error; [External] stands for
    an error produced by a lister or by the API client. *)
Inductive error : Type :=
| ErrPodNotFound
| ErrPodNotPaused
| Errorf (msg : string) (wrapped : error)
| External (msg : string).

(** The outcome of running a piece of code: a value, or a run-time panic
    that unwinds the calling hook. *)
Inductive Res (A : Type) : Type :=
| Val (a : A)
| Panic (msg : string).
Arguments Val {A} a.
Arguments Panic {A} msg.

End Go.
Export Go.

(* ===================================================================== *)
(** ** API objects *)
(* ===================================================================== *)

Module v1.

(** [v1.PodPhase], with the [Paused] phase of the patched API. *)
Inductive PodPhase : Type :=
| PodPending | PodRunning | PodSucceeded | PodFailed | PodUnknown | PodPaused.

Definition PodPhase_eqb (a b : PodPhase) : bool :=
  match a, b with
  | PodPending, PodPending | PodRunning, PodRunning
  | PodSucceeded, PodSucceeded | PodFailed, PodFailed
  | PodUnknown, PodUnknown | PodPaused, PodPaused => true
  | _, _ => false
  end.

(** The fields of [v1.Pod] the plug-ins read: object metadata, then
    [Spec.Priority] (a [*int32]), [Spec.NodeName] and [Status.Phase]. *)
Record Pod : Type := mkPod {
  Namespace : string;
  Name : string;
  UID : string;
  Annotations : option (gmap string string);
  CreationTimestamp : Time;
  Priority : option Z;
  NodeName : string;
  Phase : PodPhase
}.

Definition SetAnnotations (pod : Pod) (a : option (gmap string string)) : Pod :=
  {| Namespace := Namespace pod; Name := Name pod; UID := UID pod;
     Annotations := a; CreationTimestamp := CreationTimestamp pod;
     Priority := Priority pod; NodeName := NodeName pod; Phase := Phase pod |}.

Record Node : Type := mkNode { Node_Name : string }.

(** [corev1helpers.PodPriority]: the priority, 0 when the pointer is nil. *)
Definition PodPriority (pod : Pod) : Z :=
  match Priority pod with
  | Some prio => prio
  | None => 0
  end.

End v1.
Export v1.

(** Modelled from the spec: [core.GetNamespacedName] of the coscheduling
    package, the human key of a workload, [namespace/name]. *)
Definition GetNamespacedName (pod : Pod) : string :=
  (Namespace pod ++ "/" ++ Name pod)%string.

(* ===================================================================== *)
(** ** Scheduler framework objects *)
(* ===================================================================== *)

Module framework.

Inductive Code : Type :=
| Success | Error | Unschedulable | UnschedulableAndUnresolvable | Wait | Skip.

(** [*framework.Status]: [None] is the nil status, which the framework
    reads as success. *)
Record StatusT : Type := mkStatus {
  code : Code;
  reasons : list string;
  err : option error
}.
Abbreviation Status := (option StatusT) (only parsing).

Definition NewStatus (c : Code) (rs : list string) : Status :=
  Some {| code := c; reasons := rs; err := None |}.

Fixpoint ErrorText (e : error) : string :=
  match e with
  | ErrPodNotFound => "pod not found in cache"
  | ErrPodNotPaused => "pod is not paused"
  | Errorf msg wrapped => (msg ++ ErrorText wrapped)%string
  | External msg => msg
  end.

Definition AsStatus (e : error) : Status :=
  Some {| code := Error; reasons := [ErrorText e]; err := Some e |}.

(** The [Code()] method of a status, defined on the nil status. *)
Definition Status_Code (s : Status) : Code :=
  match s with
  | None => Success
  | Some st => code st
  end.

(** [framework.NodeInfo]: the node and the pods the snapshot has on it.
    The hooks always receive a node information whose node is set. *)
Record NodeInfo : Type := mkNodeInfo {
  Node : v1.Node;
  Pods : list Pod
}.

(** [framework.NewNodeInfo(pods...)] followed by [SetNode(node)]. *)
Definition NewNodeInfo (pods : list Pod) (node : v1.Node) : NodeInfo :=
  {| Node := node; Pods := pods |}.

(** [noderesources.InsufficientResource], of which the hooks read [Reason]. *)
Record InsufficientResource : Type := mkInsufficient { Reason : string }.

Record PostFilterResult : Type := mkPostFilterResult { NominatedNodeName : string }.

Definition NewPostFilterResultWithNominatedNode (name : string) : PostFilterResult :=
  {| NominatedNodeName := name |}.

End framework.
Export framework.

(* ===================================================================== *)
(** ** Collaborators, mutable state and the execution monad *)
(* ===================================================================== *)

(** What the plug-in reads from its host during one hook: the clock, the
    informer caches, the API client, the resource-fit function. *)
Record Env : Type := mkEnv {
  (** the successive values of [time.Now()] *)
  clock : nat -> Time;
  (** [time.ParseDuration]; [None] is a parse error *)
  ParseDuration : string -> option Duration;
  (** [podLister.Pods(namespace).Get(name)] *)
  podLister : string -> string -> Pod + error;
  (** [nodeLister.Get(name)] *)
  nodeLister : string -> v1.Node + error;
  (** [clientSet.CoreV1().Pods(ns).Update(...)]; [None] is success *)
  Update : Pod -> option error;
  (** the order in which [range] visits the keys of a cache snapshot *)
  rangeOrder : gmap string string -> list string;
  (** [noderesources.Fits] *)
  Fits : Pod -> NodeInfo -> list InsufficientResource;
  (** [fh.NominatedPodsForNode(name)] *)
  NominatedPodsForNode : string -> list Pod;
  (** [fh.GetWaitingPod(uid) != nil] *)
  GetWaitingPod : string -> bool;
  (** [fh.SnapshotSharedLister().NodeInfos().List()] *)
  NodeInfosList : list NodeInfo + error
}.

(** The mutable state: the number of clock readings taken so far, the
    caches of the managers, and the objects the API server accepted (most
    recent first).  A cache is a finite map; the expiry of entries (an hour
    after they were last set) is an action of the cache's janitor between
    operations and is not part of an operation. *)
Record State : Type := mkState {
  tick : nat;
  (** [podDeadlines] of the plug-in's deadline manager, keyed by UID *)
  podDeadlines : gmap string Time;
  (** [podDeadlines] of the deadline manager the preemption manager owns *)
  ownPodDeadlines : gmap string Time;
  (** [pausedPods] of the preemption manager: workload key to node name *)
  pausedPods : gmap string string;
  apiWrites : list Pod
}.

Definition M (A : Type) : Type := State -> Res A * State.

Definition ret {A} (a : A) : M A := fun s => (Val a, s).

Definition bind {A B} (m : M A) (k : A -> M B) : M B :=
  fun s =>
    match m s with
    | (Val a, s') => k a s'
    | (Panic msg, s') => (Panic msg, s')
    end.

Definition panic {A} (msg : string) : M A := fun s => (Panic msg, s).

Definition gets {A} (f : State -> A) : M A := fun s => (Val (f s), s).

Definition modify (f : State -> State) : M unit := fun s => (Val tt, f s).

Declare Scope go_scope.
Delimit Scope go_scope with go.
Notation "x <- c1 ;; c2" := (bind c1 (fun x => c2))
  (at level 100, c1 at next level, right associativity) : go_scope.
Notation "c1 ;;; c2" := (bind c1 (fun _ => c2))
  (at level 100, right associativity) : go_scope.
Open Scope go_scope.

Definition withPodDeadlines (c : gmap string Time) (s : State) : State :=
  {| tick := tick s; podDeadlines := c; ownPodDeadlines := ownPodDeadlines s;
     pausedPods := pausedPods s; apiWrites := apiWrites s |}.

Definition withOwnPodDeadlines (c : gmap string Time) (s : State) : State :=
  {| tick := tick s; podDeadlines := podDeadlines s; ownPodDeadlines := c;
     pausedPods := pausedPods s; apiWrites := apiWrites s |}.

Definition withPausedPods (c : gmap string string) (s : State) : State :=
  {| tick := tick s; podDeadlines := podDeadlines s;
     ownPodDeadlines := ownPodDeadlines s; pausedPods := c;
     apiWrites := apiWrites s |}.

Definition withApiWrites (w : list Pod) (s : State) : State :=
  {| tick := tick s; podDeadlines := podDeadlines s;
     ownPodDeadlines := ownPodDeadlines s; pausedPods := pausedPods s;
     apiWrites := w |}.

Definition withTick (n : nat) (s : State) : State :=
  {| tick := n; podDeadlines := podDeadlines s;
     ownPodDeadlines := ownPodDeadlines s; pausedPods := pausedPods s;
     apiWrites := apiWrites s |}.

(** [time.Now()]: the next reading of the clock. *)
Definition time_Now (env : Env) : M Time :=
  fun s => (Val (clock env (tick s)), withTick (S (tick s)) s).

Definition nilMapAssignment : string := "assignment to entry in nil map".
Definition nilDereference : string := "invalid memory address or nil pointer dereference".

(* ===================================================================== *)
(** ** pkg/rtpreemptive/predictor *)
(* ===================================================================== *)

Module predictor.

(** [type Metrics []float64] *)
Abbreviation Metrics := (list float) (only parsing).

(** The padding loop [for i := start; i < msize; i++ { m = append(m, 0) }];
    the fuel is the number of iterations left. *)
Fixpoint padLoop (fuel : nat) (i msize : Z) (m : list float) : list float :=
  match fuel with
  | O => m
  | S fuel' => if i <? msize then padLoop fuel' (i + 1) msize (m ++ [0%float]) else m
  end.

Definition padMetrics (msize : Z) (metrics : Metrics) : Metrics :=
  let size := Z.of_nat (length metrics) in
  let maxSize := if size <? 4 then size else 4 in
  let m := firstn (Z.to_nat maxSize) metrics in
  padLoop (Z.to_nat (msize - (size - 1))) (size - 1) msize m.

End predictor.

(** [laxity.PredictorMetricSize], the size handed to [NewATLASPredictor]. *)
Definition PredictorMetricSize : Z := 10.

(* ===================================================================== *)
(** ** pkg/deadline: the SimpleDDL queue sort *)
(* ===================================================================== *)

Module simpleddl.

Definition AnnotationKeyPrefix : string := "simpleddl.scheduling.x-k8s.io/".
Definition AnnotationKeyDDL : string := (AnnotationKeyPrefix ++ "ddl")%string.
Definition defaultDDLRelative : Duration := Minute * 10.

Section WithRuntime.
(** [time.ParseDuration]; [None] is a parse error. *)
Context (ParseDuration : string -> option Duration).

(** [now] is the value [time.Now()] returns if this call reads the clock. *)
Definition parseDDL (now : Time) (creationTime : Time) (p : Pod) : Time :=
  if IsZero creationTime then Add now defaultDDLRelative
  else
    let defaultDDL := Add creationTime defaultDDLRelative in
    match index (Annotations p) AnnotationKeyDDL with
    | None => defaultDDL
    | Some ddlStr =>
        match ParseDuration ddlStr with
        | None => defaultDDL
        | Some ddl => if ddl <? 0 then defaultDDL else Add creationTime ddl
        end
    end.

(** [now1] and [now2] are the clock readings of the two [parseDDL] calls,
    in program order. *)
Definition Less (now1 now2 : Time) (podInfo1 podInfo2 : Pod) : bool :=
  let prio1 := PodPriority podInfo1 in
  let prio2 := PodPriority podInfo2 in
  if negb (prio1 =? prio2) then prio1 >? prio2
  else
    let creationT1 := CreationTimestamp podInfo1 in
    let creationT2 := CreationTimestamp podInfo2 in
    let ddl1 := parseDDL now1 creationT1 podInfo1 in
    let ddl2 := parseDDL now2 creationT2 podInfo2 in
    if Equal ddl1 ddl2
    then String.ltb (GetNamespacedName podInfo1) (GetNamespacedName podInfo2)
    else Before ddl1 ddl2.
End WithRuntime.

End simpleddl.

(* ===================================================================== *)
(** ** pkg/rtpreemptive/deadline: the deadline manager *)
(* ===================================================================== *)

Module deadline.

Definition AnnotationKeyPrefix : string := "rt-preemptive.scheduling.x-k8s.io/".
Definition AnnotationKeyDDL : string := (AnnotationKeyPrefix ++ "ddl")%string.
Definition defaultDDLRelative : Duration := Hour * 24 * 30.

(** A [deadlineManager] value is its cache.  [NewDeadlineManager] is called
    twice: by the plug-in and by the preemption manager. *)
Inductive deadlineManager : Type := OfPlugin | OfPreemptionManager.

Definition cache (m : deadlineManager) (s : State) : gmap string Time :=
  match m with
  | OfPlugin => podDeadlines s
  | OfPreemptionManager => ownPodDeadlines s
  end.

Definition withCache (m : deadlineManager) (c : gmap string Time) (s : State) : State :=
  match m with
  | OfPlugin => withPodDeadlines c s
  | OfPreemptionManager => withOwnPodDeadlines c s
  end.

Section WithEnv.
Context (env : Env).

Definition ParsePodDeadline (pod : Pod) : M Time :=
  let creationTime := CreationTimestamp pod in
  if IsZero creationTime then
    now <- time_Now env ;;
    ret (Add now defaultDDLRelative)
  else
    let defaultDDL := Add creationTime defaultDDLRelative in
    match index (Annotations pod) AnnotationKeyDDL with
    | None => ret defaultDDL
    | Some ddlStr =>
        match ParseDuration env ddlStr with
        | None => ret defaultDDL
        | Some ddl =>
            if ddl <? 0 then ret defaultDDL else ret (Add creationTime ddl)
        end
    end.

Definition GetPodDeadline (m : deadlineManager) (pod : Pod) : M Time :=
  found <- gets (fun s => cache m s !! UID pod) ;;
  match found with
  | None => ParsePodDeadline pod
  | Some ddl => ret ddl
  end.

Definition AddPodDeadline (m : deadlineManager) (pod : Pod) : M Time :=
  ddl <- GetPodDeadline m pod ;;
  modify (fun s => withCache m (<[UID pod := ddl]> (cache m s)) s) ;;;
  ret ddl.

(** [Delete] of the UID; [DeleteExpired] is the janitor's sweep. *)
Definition RemovePodDeadline (m : deadlineManager) (pod : Pod) : M unit :=
  modify (fun s => withCache m (delete (UID pod) (cache m s)) s).
End WithEnv.

End deadline.

(* ===================================================================== *)
(** ** pkg/rtpreemptive/preemption: the preemption manager *)
(* ===================================================================== *)

Module preemption.

Definition AnnotationKeyPrefix : string := "rt-preemptive.scheduling.x-k8s.io/".
Definition AnnotationKeyPausePod : string := (AnnotationKeyPrefix ++ "pause-pod")%string.

Record Candidate : Type := mkCandidate {
  Candidate_NodeName : string;
  Candidate_Pod : Pod
}.

Definition IsPodMarkedPaused (pod : Pod) : bool :=
  match index (Annotations pod) AnnotationKeyPausePod with
  | None => false
  | Some val => String.eqb val "true"
  end.

Definition toCacheKey (p : Pod) : string :=
  (Namespace p ++ "/" ++ Name p)%string.

Definition parseCacheKey (key : string) : string * string :=
  let res := Split key "/"%char in
  if negb (Nat.eqb (length res) 2) then (EmptyString, EmptyString)
  else (nth 0 res EmptyString, nth 1 res EmptyString).

(** [annotations[key] = value] on the map [GetAnnotations] returns:
    a run-time panic when the pod has no annotation map.  The Go code
    updates the pod object in place; the marked pod is the value that is
    handed on to the write and to the caller. *)
Definition markPodToResume (pod : Pod) : M Pod :=
  match Annotations pod with
  | None => panic nilMapAssignment
  | Some annotations =>
      ret (SetAnnotations pod (Some (<[AnnotationKeyPausePod := "false"%string]> annotations)))
  end.

Definition markPodToPaused (pod : Pod) : M Pod :=
  match Annotations pod with
  | None => panic nilMapAssignment
  | Some annotations =>
      ret (SetAnnotations pod (Some (<[AnnotationKeyPausePod := "true"%string]> annotations)))
  end.

Section WithEnv.
Context (env : Env).

(** The write through the API client; an accepted object is recorded. *)
Definition updatePod (pod : Pod) : M (option error) :=
  match Update env pod with
  | Some e => ret (Some e)
  | None => modify (fun s => withApiWrites (pod :: apiWrites s) s) ;;; ret None
  end.

Definition AddPausedPod (candidate : Candidate) : M unit :=
  modify (fun s =>
    withPausedPods (<[toCacheKey (Candidate_Pod candidate) := Candidate_NodeName candidate]>
                      (pausedPods s)) s) ;;;
  deadline.AddPodDeadline env deadline.OfPreemptionManager (Candidate_Pod candidate) ;;;
  ret tt.

Definition RemovePausedPod (pod : Pod) : M unit :=
  modify (fun s => withPausedPods (delete (toCacheKey pod) (pausedPods s)) s) ;;;
  deadline.RemovePodDeadline deadline.OfPreemptionManager pod.

Definition GetPausedPodNode (pod : Pod) : M (v1.Node + error) :=
  found <- gets (fun s => pausedPods s !! toCacheKey pod) ;;
  match found with
  | None => ret (inr ErrPodNotFound)
  | Some nodeName =>
      match nodeLister env nodeName with
      | inr e => ret (inr (Errorf ("failed to get node " ++ nodeName ++ ": ") e))
      | inl node => ret (inl node)
      end
  end.

(** The body of [for key := range m.pausedPods.Items()], over the keys in
    the order the loop visits them; every [continue] is the recursive
    call on the remaining keys. *)
Fixpoint resumeScan (keys : list string) (pod : Pod) : M (option Candidate) :=
  match keys with
  | [] => ret None
  | key :: rest =>
      let '(namespace, name) := parseCacheKey key in
      match podLister env namespace name with
      | inr _ => resumeScan rest pod
      | inl pausedPod =>
          pausedPodDDL <- deadline.GetPodDeadline env deadline.OfPreemptionManager pausedPod ;;
          podDDL <- deadline.GetPodDeadline env deadline.OfPreemptionManager pod ;;
          if Before podDDL pausedPodDDL then resumeScan rest pod
          else
            found <- GetPausedPodNode pausedPod ;;
            match found with
            | inr _ => resumeScan rest pod
            | inl node =>
                resumed <- markPodToResume pausedPod ;;
                failed <- updatePod resumed ;;
                match failed with
                | Some _ => resumeScan rest pod
                | None =>
                    RemovePausedPod resumed ;;;
                    ret (Some {| Candidate_NodeName := Node_Name node;
                                 Candidate_Pod := resumed |})
                end
            end
      end
  end.

Definition ResumePausedPod (pod : Pod) : M (option Candidate) :=
  items <- gets pausedPods ;;
  resumeScan (rangeOrder env items) pod.

Definition PauseCandidate (candidate : Candidate) : M (option error) :=
  match podLister env (Namespace (Candidate_Pod candidate)) (Name (Candidate_Pod candidate)) with
  | inr e => ret (Some (Errorf "failed to get latest pod: " e))
  | inl latestPod =>
      marked <- markPodToPaused latestPod ;;
      failed <- updatePod marked ;;
      match failed with
      | Some e => ret (Some (Errorf "failed to pause pod: " e))
      | None => AddPausedPod candidate ;;; ret None
      end
  end.
End WithEnv.

End preemption.

(* ===================================================================== *)
(** ** pkg/rtpreemptive: the EDFPreemptiveScheduling plug-in *)
(* ===================================================================== *)

Module rtpreemptive.

Import preemption.

(** The methods of [preemption.Manager] the plug-in calls whose
    implementation is not part of the sources (the manager above is an
    earlier revision of the interface); they are parameters of the
    plug-in.  A returned [*Candidate] or [error] may be nil. *)
Record Manager : Type := mkManager {
  GetPausedCandidateOnNode : string -> M (option Candidate);
  ResumeCandidate : Candidate -> M (option Candidate * option error);
  PauseCandidate : Candidate -> M (option Candidate * option error)
}.

Section Plugin.
Context (env : Env) (preemptionManager : Manager).

Abbreviation deadlineManager := deadline.OfPlugin (only parsing).

Definition Less (podInfo1 podInfo2 : Pod) : M bool :=
  let prio1 := PodPriority podInfo1 in
  let prio2 := PodPriority podInfo2 in
  if negb (prio1 =? prio2) then ret (prio1 >? prio2)
  else
    ddl1 <- deadline.AddPodDeadline env deadlineManager podInfo1 ;;
    ddl2 <- deadline.AddPodDeadline env deadlineManager podInfo2 ;;
    if Equal ddl1 ddl2
    then ret (String.ltb (GetNamespacedName podInfo1) (GetNamespacedName podInfo2))
    else ret (Before ddl1 ddl2).

Definition PreFilter (pod0 : Pod) : M Status :=
  let latestPod :=
    match podLister env (Namespace pod0) (Name pod0) with
    | inl p => Some p
    | inr _ => None
    end in
  let pod := match latestPod with Some p => p | None => pod0 end in
  if IsPodMarkedPaused pod then
    if GetWaitingPod env (UID pod) || PodPhase_eqb (Phase pod) PodPending
    then ret (NewStatus Skip [])
    else
      found <- GetPausedCandidateOnNode preemptionManager (NodeName pod) ;;
      let candidate :=
        match found with
        | Some c => c
        | None => {| Candidate_NodeName := NodeName pod; Candidate_Pod := pod |}
        end in
      match latestPod with
      | None => panic nilDereference
      | Some latest =>
          if negb (String.eqb (UID (Candidate_Pod candidate)) (UID latest))
          then ret (NewStatus UnschedulableAndUnresolvable
                      ["rejected as another paused pod has higher priority"%string])
          else
            r <- ResumeCandidate preemptionManager candidate ;;
            let '(c, err) := r in
            match err with
            | Some ErrPodNotPaused => ret (NewStatus Skip [])
            | Some _ => ret (NewStatus UnschedulableAndUnresolvable [])
            | None =>
                match c with
                | None => panic nilDereference
                | Some _ =>
                    ret (NewStatus Skip ["skipped because pod is resumed successfully"%string])
                end
            end
      end
  else
    deadline.AddPodDeadline env deadlineManager pod ;;;
    ret None.

Definition resumeMessage : string := "found a paused pod on node that need to be resumed".

(** The second step of [Filter]: [true] when a paused pod of the node
    with an earlier deadline was resumed, which ends the hook. *)
Definition resumePausedFirst (pod : Pod) (nodeInfo : NodeInfo) : M bool :=
  found <- GetPausedCandidateOnNode preemptionManager (Node_Name (Node nodeInfo)) ;;
  match found with
  | None => ret false
  | Some candidate =>
      candidateDDL <- deadline.GetPodDeadline env deadlineManager (Candidate_Pod candidate) ;;
      podDDL <- deadline.GetPodDeadline env deadlineManager pod ;;
      if Before candidateDDL podDDL then
        r <- ResumeCandidate preemptionManager candidate ;;
        let '(c, err) := r in
        match err with
        | None =>
            match c with
            | None => panic nilDereference
            | Some _ => ret true
            end
        | Some _ => ret false
        end
      else ret false
  end.

Definition Filter (pod : Pod) (nodeInfo : NodeInfo) : M Status :=
  if (0 <? len (NodeName pod)) && negb (String.eqb (NodeName pod) (Node_Name (Node nodeInfo)))
  then ret (NewStatus UnschedulableAndUnresolvable [])
  else
    resumed <- resumePausedFirst pod nodeInfo ;;
    if resumed then ret (NewStatus UnschedulableAndUnresolvable [resumeMessage])
    else
      let unpausedPods :=
        List.filter (fun p => negb (PodPhase_eqb (Phase p) PodPaused)) (Pods nodeInfo) in
      let nodeExcludePausedPods := NewNodeInfo unpausedPods (Node nodeInfo) in
      let insufficientResources := Fits env pod nodeExcludePausedPods in
      if negb (Nat.eqb (length insufficientResources) 0) then
        let failureReasons := List.map Reason insufficientResources in
        ret (NewStatus Unschedulable failureReasons)
      else ret None.

(** The loop of [selectCandidate]. *)
Fixpoint selectLoop (cs : list Candidate) (maxDDL : Time) (bestCandidate : Candidate)
  : M Candidate :=
  match cs with
  | [] => ret bestCandidate
  | c :: rest =>
      ddl <- deadline.GetPodDeadline env deadlineManager (Candidate_Pod c) ;;
      if After ddl maxDDL then selectLoop rest ddl c
      else selectLoop rest maxDDL bestCandidate
  end.

Definition selectCandidate (candidates : list Candidate) : M (option Candidate) :=
  match candidates with
  | [] => ret None
  | first :: _ =>
      maxDDL <- deadline.GetPodDeadline env deadlineManager (Candidate_Pod first) ;;
      best <- selectLoop candidates maxDDL first ;;
      ret (Some best)
  end.

(** The pod the lister has for a resident, the resident itself when the
    lookup fails. *)
Definition latestOf (podInfo : Pod) : Pod :=
  match podLister env (Namespace podInfo) (Name podInfo) with
  | inl p => p
  | inr _ => podInfo
  end.

(** The first loop of [findCandidateOnNode], carrying [maxDDL],
    [candidatePod] and [unpausedPods]. *)
Fixpoint scanResidents (pod : Pod) (podInfos : list Pod) (maxDDL : Time)
    (candidatePod : option Pod) (unpausedPods : list Pod)
  : M (option Pod * list Pod) :=
  match podInfos with
  | [] => ret (candidatePod, unpausedPods)
  | podInfo :: rest =>
      let p := latestOf podInfo in
      if String.eqb (UID p) (UID pod)
      then scanResidents pod rest maxDDL candidatePod unpausedPods
      else if negb (PodPhase_eqb (Phase p) PodPaused) then
        ddl <- deadline.GetPodDeadline env deadlineManager p ;;
        if After ddl maxDDL
        then scanResidents pod rest ddl (Some p) (unpausedPods ++ [p])
        else scanResidents pod rest maxDDL candidatePod (unpausedPods ++ [p])
      else scanResidents pod rest maxDDL candidatePod unpausedPods
  end.

Definition findCandidateOnNode (pod : Pod) (nodeInfo : NodeInfo) : M (option Pod) :=
  podDDL <- deadline.GetPodDeadline env deadlineManager pod ;;
  let maxDDL := podDDL in
  r <- scanResidents pod
         (Pods nodeInfo ++ NominatedPodsForNode env (Node_Name (Node nodeInfo)))
         maxDDL None [] ;;
  let '(found, unpausedPods) := r in
  match found with
  | None => ret None
  | Some candidatePod =>
      let podsExcludeCandidate :=
        List.filter (fun p => negb (String.eqb (UID p) (UID candidatePod))) unpausedPods in
      let nodeAfterPreemption := NewNodeInfo podsExcludeCandidate (Node nodeInfo) in
      let insufficientResources := Fits env pod nodeAfterPreemption in
      if (0 <? length insufficientResources)%nat then ret None
      else ret (Some candidatePod)
  end.

(** The loop of [PostFilter] that collects one candidate per node. *)
Fixpoint collectCandidates (pod : Pod) (filteredNodeStatusMap : gmap string StatusT)
    (allNode : list NodeInfo) (candidates : list Candidate) : M (list Candidate) :=
  match allNode with
  | [] => ret candidates
  | nodeInfo :: rest =>
      match Status_Code (filteredNodeStatusMap !! Node_Name (Node nodeInfo)) with
      | UnschedulableAndUnresolvable =>
          collectCandidates pod filteredNodeStatusMap rest candidates
      | _ =>
          found <- findCandidateOnNode pod nodeInfo ;;
          match found with
          | Some candidate =>
              collectCandidates pod filteredNodeStatusMap rest
                (candidates ++ [{| Candidate_NodeName := Node_Name (Node nodeInfo);
                                   Candidate_Pod := candidate |}])
          | None => collectCandidates pod filteredNodeStatusMap rest candidates
          end
      end
  end.

Definition PostFilter (pod : Pod) (filteredNodeStatusMap : gmap string StatusT)
  : M (option PostFilterResult * Status) :=
  match NodeInfosList env with
  | inr e => ret (None, AsStatus e)
  | inl allNode =>
      candidates <- collectCandidates pod filteredNodeStatusMap allNode [] ;;
      selected <- selectCandidate candidates ;;
      match selected with
      | None =>
          ret (None, NewStatus UnschedulableAndUnresolvable
                       ["no preemptible candidates found"%string])
      | Some candidate =>
          r <- PauseCandidate preemptionManager candidate ;;
          match snd r with
          | Some e => ret (None, AsStatus e)
          | None =>
              ret (Some (NewPostFilterResultWithNominatedNode (Candidate_NodeName candidate)),
                   NewStatus Success [])
          end
      end
  end.
End Plugin.

End rtpreemptive.

(** The annotation the post-filter is documented to honour:
    [annotations.AnnotationKeyPreemptible], which marks a pod that cannot be
    paused. *)
Module annotations.
Definition AnnotationKeyPrefix : string := "rt-preemptive.scheduling.x-k8s.io/".
Definition AnnotationKeyPreemptible : string := (AnnotationKeyPrefix ++ "preemptible")%string.
Definition AnnotationKeyDDL : string := (AnnotationKeyPrefix ++ "ddl")%string.
Definition AnnotationKeyExecTime : string := (AnnotationKeyPrefix ++ "exec-time")%string.
Definition AnnotationKeyATLASMetrics : string := (AnnotationKeyPrefix ++ "metrics")%string.
Definition AnnotationKeyATLASEnabled : string := (AnnotationKeyPrefix ++ "atlas-enabled")%string.
End annotations.

(* ===================================================================== *)
(** ** pkg/rtpreemptive/laxity: the features of a pod *)
(* ===================================================================== *)

Module laxity.

(** [pod.Annotations[key]] read as a value: the empty string when the key
    is absent. *)
Definition annotation (pod : Pod) (key : string) : string :=
  match index (Annotations pod) key with
  | Some value => value
  | None => EmptyString
  end.

Section WithRuntime.
(** [time.ParseDuration] ([None] is an error); the values of
    [strconv.ParseFloat(token, 64)] and [strconv.Atoi(token)], whose errors
    the code drops; the conversion [float64(n)]; and the four resource
    quantities of a pod as [AsApproximateFloat64] gives them. *)
Context (ParseDuration : string -> option Duration)
        (ParseFloat : string -> float)
        (Atoi : string -> Z)
        (float64 : Z -> float)
        (cpuRequest memoryRequest cpuLimit memoryLimit : Pod -> float).

Definition getPodAdditionalMetrics (pod : Pod) : list float :=
  match index (Annotations pod) annotations.AnnotationKeyATLASMetrics with
  | None => []
  | Some metricsStr =>
      let metricsTokens := Split metricsStr ","%char in
      List.map ParseFloat metricsTokens
  end.

Definition getJobIndex (pod : Pod) : Z :=
  let token := annotation pod "batch.kubernetes.io/job-completion-index" in
  Atoi token.

Definition getPodExecutionTime (pod : Pod) : Duration :=
  match ParseDuration (annotation pod annotations.AnnotationKeyExecTime) with
  | Some execTime => execTime
  | None => 0
  end.

Definition getATLASEnabled (pod : Pod) : bool :=
  match index (Annotations pod) annotations.AnnotationKeyATLASEnabled with
  | Some enabled => String.eqb enabled "true"
  | None => false
  end.

Definition getPodMetrics (pod : Pod) : list float :=
  let metrics := [cpuRequest pod; memoryRequest pod] in
  let metrics := metrics ++ [cpuLimit pod; memoryLimit pod] in
  let metrics :=
    match ParseDuration (annotation pod annotations.AnnotationKeyDDL) with
    | Some ddlRel => metrics ++ [float64 ddlRel]
    | None => metrics
    end in
  let metrics := metrics ++ [float64 (getJobIndex pod)] in
  metrics ++ getPodAdditionalMetrics pod.
End WithRuntime.

End laxity.

(* ===================================================================== *)
(** * Reference notions and example data *)
(* ===================================================================== *)

(** Exactly one of three propositions holds. *)
Definition exactlyOne (a b c : Prop) : Prop :=
  (a /\ ~ b /\ ~ c) \/ (~ a /\ b /\ ~ c) \/ (~ a /\ ~ b /\ c).

(** The default relative deadlines of the two profiles, in nanoseconds. *)
Definition thirtyDays : Duration := 2592000000000000.
Definition tenMinutes : Duration := 600000000000.

(** The deadline the deadline manager reports for a pod whose UID is not
    cached, when the clock reads [now]. *)
Definition parsedDeadline (env : Env) (now : Time) (pod : Pod) : Time :=
  if IsZero (CreationTimestamp pod) then now + thirtyDays
  else
    match index (Annotations pod) deadline.AnnotationKeyDDL with
    | None => CreationTimestamp pod + thirtyDays
    | Some ddlStr =>
        match ParseDuration env ddlStr with
        | None => CreationTimestamp pod + thirtyDays
        | Some ddl =>
            if ddl <? 0 then CreationTimestamp pod + thirtyDays
            else CreationTimestamp pod + ddl
        end
    end.

(** The deadline reported for a pod against a cache, when the clock reads
    [now]: the cached one if there is one. *)
Definition deadlineAt (env : Env) (c : gmap string Time) (now : Time) (pod : Pod) : Time :=
  match c !! UID pod with
  | Some ddl => ddl
  | None => parsedDeadline env now pod
  end.

(** The state after a deadline lookup: one more clock reading was taken
    exactly when the pod is not cached and carries no creation timestamp. *)
Definition afterLookup (c : gmap string Time) (pod : Pod) (s : State) : State :=
  match c !! UID pod with
  | Some _ => s
  | None => if IsZero (CreationTimestamp pod) then withTick (S (tick s)) s else s
  end.

(** The order of the queue on sort keys: priority descending, then
    deadline ascending, then namespaced name ascending. *)
Definition sortKeyLess (prio1 prio2 : Z) (ddl1 ddl2 : Time) (key1 key2 : string) : bool :=
  if negb (prio1 =? prio2) then prio1 >? prio2
  else if ddl1 =? ddl2 then String.ltb key1 key2
  else ddl1 <? ddl2.

(** The annotation (the result of looking it up) gives no usable relative
    deadline: it is absent, does not parse as a duration, or is negative. *)
Definition noUsableDeadline (parse : string -> option Duration)
    (annotation : option string) : Prop :=
  annotation = None
  \/ exists str, annotation = Some str
       /\ (parse str = None \/ exists d, parse str = Some d /\ d < 0).

(** The annotation declares the relative deadline [d]. *)
Definition declaresDeadline (parse : string -> option Duration)
    (annotation : option string) (d : Duration) : Prop :=
  exists str, annotation = Some str /\ parse str = Some d /\ 0 <= d.

(** The node as the filter sees it: its residents that are not paused. *)
Definition viewWithoutPaused (nodeInfo : NodeInfo) : NodeInfo :=
  NewNodeInfo
    (List.filter (fun p => negb (PodPhase_eqb (Phase p) PodPaused)) (Pods nodeInfo))
    (Node nodeInfo).

(** The status for a list of insufficiency reasons: success (the nil status)
    for none, [Unschedulable] with all of them otherwise. *)
Definition fitStatus (insufficient : list InsufficientResource) : option StatusT :=
  match insufficient with
  | [] => None
  | _ :: _ => NewStatus Unschedulable (List.map Reason insufficient)
  end.

(** [d] is a deadline the deadline manager with cache [c] reports for [p]
    at one of the clock readings [lo .. hi]. *)
Definition reported (env : Env) (c : gmap string Time) (lo hi : nat) (p : Pod)
    (d : Time) : Prop :=
  exists n : nat, (lo <= n <= hi)%nat /\ d = deadlineAt env c (clock env n) p.

(** The pod with its pause flag set to [value]. *)
Definition withPauseFlag (value : string) (pod : Pod) (entries : gmap string string) : Pod :=
  SetAnnotations pod (Some (<[preemption.AnnotationKeyPausePod := value]> entries)).

(** [s'] differs from [s] at most by clock readings taken in between. *)
Definition onlyClock (s s' : State) : Prop :=
  (tick s <= tick s')%nat /\ s' = withTick (tick s') s.

(** The pod the lister has for a key of the paused map. *)
Definition listedFor (env : Env) (key : string) : Pod + error :=
  podLister env (fst (preemption.parseCacheKey key)) (snd (preemption.parseCacheKey key)).

(** The scan of [ResumePausedPod], started in state [s] for the trigger pod
    [W], passes over the entry [key] (clock readings up to [hi]): the lister
    has no pod for it, or the trigger's deadline is before the paused pod's,
    or the node of the paused pod is not found, or the write of the pod
    marked [pause-pod = false] fails. *)
Definition passedOver (env : Env) (s : State) (hi : nat) (W : Pod) (key : string) : Prop :=
  match listedFor env key with
  | inr _ => True
  | inl R =>
      (exists dR dW,
          reported env (ownPodDeadlines s) (tick s) hi R dR
          /\ reported env (ownPodDeadlines s) (tick s) hi W dW
          /\ dW < dR)
      \/ pausedPods s !! preemption.toCacheKey R = None
      \/ (exists nodeName e,
             pausedPods s !! preemption.toCacheKey R = Some nodeName
             /\ nodeLister env nodeName = inr e)
      \/ (exists entries e,
             Annotations R = Some entries
             /\ Update env (withPauseFlag "false" R entries) = Some e)
  end.

(** The scan resumes the entry [key] and returns the candidate [c]: the
    trigger's deadline is not before the paused pod's, the pod marked
    [pause-pod = false] was accepted by the store, its entry is deleted from
    the paused map, and [c] holds the node of that entry and the marked pod. *)
Definition resumedEntry (env : Env) (s s' : State) (W : Pod) (key : string)
    (c : preemption.Candidate) : Prop :=
  exists R entries nodeName node,
    listedFor env key = inl R
    /\ Annotations R = Some entries
    /\ preemption.Candidate_Pod c = withPauseFlag "false" R entries
    /\ pausedPods s !! preemption.toCacheKey R = Some nodeName
    /\ nodeLister env nodeName = inl node
    /\ preemption.Candidate_NodeName c = Node_Name node
    /\ (exists dR dW,
          reported env (ownPodDeadlines s) (tick s) (tick s') R dR
          /\ reported env (ownPodDeadlines s) (tick s) (tick s') W dW
          /\ dR <= dW)
    /\ Update env (withPauseFlag "false" R entries) = None
    /\ apiWrites s' = withPauseFlag "false" R entries :: apiWrites s
    /\ pausedPods s' = delete (preemption.toCacheKey R) (pausedPods s).

(** What the scan over [keys] does between [s] and [s']. *)
Definition scanOutcome (env : Env) (W : Pod) (keys : list string) (s : State)
    (r : Res (option preemption.Candidate)) (s' : State) : Prop :=
  (tick s <= tick s')%nat
  /\ match r with
     | Val (Some c) =>
         exists before key after,
           keys = before ++ key :: after
           /\ Forall (passedOver env s (tick s') W) before
           /\ resumedEntry env s s' W key c
     | Val None =>
         Forall (passedOver env s (tick s') W) keys
         /\ pausedPods s' = pausedPods s /\ apiWrites s' = apiWrites s
     | Panic _ =>
         (exists key R, In key keys /\ listedFor env key = inl R /\ Annotations R = None)
         /\ pausedPods s' = pausedPods s /\ apiWrites s' = apiWrites s
     end.

(** A resident the post-filter may pause for [pod]: another pod (by UID)
    that is not in phase paused. *)
Definition eligible (pod p : Pod) : bool :=
  negb (String.eqb (UID p) (UID pod)) && negb (PodPhase_eqb (Phase p) PodPaused).

(** The residents of a node for the post-filter: the pods of the snapshot
    and the pods nominated for the node, each as the lister has it. *)
Definition residentsOf (env : Env) (nodeInfo : NodeInfo) : list Pod :=
  List.map (rtpreemptive.latestOf env)
    (Pods nodeInfo ++ NominatedPodsForNode env (Node_Name (Node nodeInfo))).

Definition unpausedResidents (env : Env) (pod : Pod) (nodeInfo : NodeInfo) : list Pod :=
  List.filter (eligible pod) (residentsOf env nodeInfo).

(** The node with the candidate [c] removed, as [fits] sees it. *)
Definition viewAfterPreemption (env : Env) (pod : Pod) (nodeInfo : NodeInfo) (c : Pod)
  : NodeInfo :=
  NewNodeInfo
    (List.filter (fun p => negb (String.eqb (UID p) (UID c)))
       (unpausedResidents env pod nodeInfo))
    (Node nodeInfo).

(** Example data: a pod, the durations [time.ParseDuration] gives for the
    literals of the examples, a clock that advances by one nanosecond per
    reading, and a host without pods or nodes. *)
Definition examplePod (ns name uid : string) (created : Time) (prio : option Z)
    (ann : option (gmap string string)) : Pod :=
  {| Namespace := ns; Name := name; UID := uid; Annotations := ann;
     CreationTimestamp := created; Priority := prio; NodeName := EmptyString;
     Phase := PodRunning |}.

Definition exampleParseDuration (str : string) : option Duration :=
  if String.eqb str "10s" then Some (10 * Second)
  else if String.eqb str "20s" then Some (20 * Second)
  else if String.eqb str "1m" then Some Minute
  else if String.eqb str "1h" then Some Hour
  else if String.eqb str "-5s" then Some (- (5 * Second))
  else None.

Definition exampleClock (n : nat) : Time := 1000000 + Z.of_nat n.

Definition emptyState : State :=
  {| tick := 0; podDeadlines := ∅; ownPodDeadlines := ∅; pausedPods := ∅;
     apiWrites := [] |}.

Definition exampleEnv (pods : string -> string -> Pod + error) (nodes : list NodeInfo) : Env :=
  {| clock := exampleClock;
     ParseDuration := exampleParseDuration;
     podLister := pods;
     nodeLister := fun name => inl {| Node_Name := name |};
     Update := fun _ => None;
     rangeOrder := fun m => (map_to_list m).*1;
     Fits := fun _ _ => [];
     NominatedPodsForNode := fun _ => [];
     GetWaitingPod := fun _ => false;
     NodeInfosList := inl nodes |}.

(** The same host with a fit function that reports two insufficiencies. *)
Definition crowdedEnv (pods : string -> string -> Pod + error) : Env :=
  {| clock := exampleClock;
     ParseDuration := exampleParseDuration;
     podLister := pods;
     nodeLister := fun name => inl {| Node_Name := name |};
     Update := fun _ => None;
     rangeOrder := fun m => (map_to_list m).*1;
     Fits := fun _ _ => [ {| Reason := "Insufficient cpu" |};
                          {| Reason := "Insufficient memory" |} ];
     NominatedPodsForNode := fun _ => [];
     GetWaitingPod := fun _ => false;
     NodeInfosList := inl [] |}.

Definition noPods : string -> string -> Pod + error :=
  fun _ _ => inr (External "not found").

(** A preemption manager that holds no paused pod and whose writes succeed. *)
Definition idleManager : rtpreemptive.Manager :=
  {| rtpreemptive.GetPausedCandidateOnNode := fun _ => ret None;
     rtpreemptive.ResumeCandidate := fun c => ret (Some c, None);
     rtpreemptive.PauseCandidate := fun c => ret (Some c, None) |}.

(** A pod that was paused on [node-1] and is popped from the queue again. *)
Definition pausedPod : Pod :=
  {| Namespace := "batch"; Name := "job-7"; UID := "u7";
     Annotations := Some {[preemption.AnnotationKeyPausePod := "true"%string]};
     CreationTimestamp := 1000; Priority := None; NodeName := "node-1";
     Phase := PodRunning |}.

(** A node with one running resident that is marked as not preemptible and
    whose deadline is one hour after its creation, and an arriving pod whose
    deadline is one minute after the same creation time. *)
Definition nonPreemptibleResident : Pod :=
  {| Namespace := "batch"; Name := "resident"; UID := "ur";
     Annotations :=
       Some (<[annotations.AnnotationKeyPreemptible := "false"%string]>
               {[deadline.AnnotationKeyDDL := "1h"%string]});
     CreationTimestamp := 1000; Priority := None; NodeName := "node-1";
     Phase := PodRunning |}.

Definition arrivingPod : Pod :=
  {| Namespace := "batch"; Name := "arriving"; UID := "uw";
     Annotations := Some {[deadline.AnnotationKeyDDL := "1m"%string]};
     CreationTimestamp := 1000; Priority := None; NodeName := EmptyString;
     Phase := PodPending |}.

Definition node1 : NodeInfo :=
  {| Node := {| Node_Name := "node-1" |}; Pods := [nonPreemptibleResident] |}.

(** The features of a pod with a deadline annotation and no extra metrics:
    CPU and memory requests, CPU and memory limits, the relative deadline
    and the job index. *)
Definition sixFeatures : list float :=
  [0.5; 256; 1; 512; 60000000000; 0]%float.

(** A paused resident with a deadline one minute after its creation, held
    by the paused map for [node-1], and a trigger pod whose deadline is an
    hour after the same creation time. *)
Definition pausedResident : Pod :=
  {| Namespace := "batch"; Name := "resident"; UID := "ur";
     Annotations :=
       Some (<[preemption.AnnotationKeyPausePod := "true"%string]>
               {[deadline.AnnotationKeyDDL := "1m"%string]});
     CreationTimestamp := 1000; Priority := None; NodeName := "node-1";
     Phase := PodPaused |}.

Definition triggerPod : Pod :=
  {| Namespace := "batch"; Name := "trigger"; UID := "ut";
     Annotations := Some {[deadline.AnnotationKeyDDL := "1h"%string]};
     CreationTimestamp := 1000; Priority := None; NodeName := EmptyString;
     Phase := PodPending |}.

Definition onePaused : State :=
  withPausedPods {["batch/resident"%string := "node-1"%string]} emptyState.

(* ===================================================================== *)
(** * Properties *)
(* ===================================================================== *)

(** ** Strings: splitting a workload key *)

Section SplitFacts.
Variable sep : ascii.

Lemma Split_nonempty (s : string) : Split s sep <> [].
Proof.
  induction s as [|c s IH]; simpl; [discriminate|].
  destruct (Ascii.eqb c sep); [discriminate|].
  destruct (Split s sep); [contradiction|discriminate].
Qed.

Lemma length_Split (s : string) : length (Split s sep) = S (Count s sep).
Proof.
  induction s as [|c s IH]; simpl; [reflexivity|].
  destruct (Ascii.eqb c sep); simpl; [now rewrite IH|].
  destruct (Split s sep) eqn:E; simpl in *; [discriminate|exact IH].
Qed.

Lemma Split_without_sep (s : string) : Count s sep = 0%nat -> Split s sep = [s].
Proof.
  induction s as [|c s IH]; simpl; [reflexivity|].
  destruct (Ascii.eqb c sep); [discriminate|].
  intros H. now rewrite (IH H).
Qed.

Lemma Split_append (s1 s2 : string) :
  Count s1 sep = 0%nat ->
  Split (s1 ++ String sep s2) sep = s1 :: Split s2 sep.
Proof.
  induction s1 as [|c s1 IH]; simpl.
  - intros _. now rewrite Ascii.eqb_refl.
  - destruct (Ascii.eqb c sep); [discriminate|].
    intros H. now rewrite (IH H).
Qed.

Lemma Count_append (s1 s2 : string) :
  Count (s1 ++ s2) sep = (Count s1 sep + Count s2 sep)%nat.
Proof.
  induction s1 as [|c s1 IH]; simpl; [reflexivity|].
  rewrite IH. lia.
Qed.

Lemma Contains_false (s : string) : Contains s sep = false -> Count s sep = 0%nat.
Proof.
  unfold Contains. destruct (Count s sep); [reflexivity|discriminate].
Qed.

Lemma Contains_true (s : string) : Contains s sep = true -> (0 < Count s sep)%nat.
Proof.
  unfold Contains. destruct (Count s sep); [discriminate|lia].
Qed.
End SplitFacts.

(** C10 -- cache keys round-trip: a pod whose namespace and name hold no
    slash is recovered from its key by [parseCacheKey]; a key built from a
    name that holds a slash parses to the empty namespace and name. *)
Theorem parseCacheKey_toCacheKey (p : Pod) :
  (Contains (Namespace p) "/" = false ->
   Contains (Name p) "/" = false ->
   preemption.parseCacheKey (preemption.toCacheKey p) = (Namespace p, Name p))
  /\
  (Contains (Name p) "/" = true ->
   preemption.parseCacheKey (preemption.toCacheKey p) = (EmptyString, EmptyString)).
Proof.
  unfold preemption.parseCacheKey, preemption.toCacheKey. split.
  - intros Hns Hname.
    apply Contains_false in Hns. apply Contains_false in Hname.
    change ("/" ++ Name p)%string with (String "/" (Name p)).
    rewrite (Split_append _ _ _ Hns), (Split_without_sep _ _ Hname).
    reflexivity.
  - intros Hname. apply Contains_true in Hname.
    rewrite length_Split.
    assert (Hcount : (2 <= Count (Namespace p ++ "/" ++ Name p) "/")%nat).
    { rewrite Count_append.
      change ("/" ++ Name p)%string with (String "/" (Name p)).
      simpl Count. lia. }
    destruct (Count (Namespace p ++ "/" ++ Name p) "/") as [|[|n]];
      [lia|lia|reflexivity].
Qed.

Lemma parseCacheKey_toCacheKey_witness :
  preemption.parseCacheKey
    (preemption.toCacheKey (examplePod "batch" "job-1" "u1" 5 None None))
  = ("batch"%string, "job-1"%string)
  /\
  preemption.parseCacheKey
    (preemption.toCacheKey (examplePod "batch" "job/1" "u1" 5 None None))
  = (EmptyString, EmptyString).
Proof.
  split.
  - apply (proj1 (parseCacheKey_toCacheKey (examplePod "batch" "job-1" "u1" 5 None None)));
      reflexivity.
  - apply (proj2 (parseCacheKey_toCacheKey (examplePod "batch" "job/1" "u1" 5 None None)));
      reflexivity.
Defined.

(** ** The predictor's padding *)

Lemma padLoop_repeat (fuel : nat) (i msize : Z) (m : list float) :
  fuel = Z.to_nat (msize - i) ->
  predictor.padLoop fuel i msize m = m ++ repeat 0%float fuel.
Proof.
  revert i m. induction fuel as [|fuel IH]; intros i m Hfuel; simpl.
  - now rewrite app_nil_r.
  - assert (Hlt : (i <? msize) = true) by (apply Z.ltb_lt; lia).
    rewrite Hlt, IH by lia. now rewrite <- app_assoc.
Qed.

(** What [padMetrics] returns for every input: at most four features, then
    one zero for each index from [len(metrics) - 1] up to [msize - 1]. *)
Lemma padMetrics_shape (msize : Z) (metrics : list float) :
  predictor.padMetrics msize metrics
  = firstn (Nat.min 4 (length metrics)) metrics
    ++ repeat 0%float (Z.to_nat (msize - Z.of_nat (length metrics) + 1)).
Proof.
  unfold predictor.padMetrics. rewrite padLoop_repeat by reflexivity.
  f_equal.
  - f_equal. destruct (Z.ltb_spec (Z.of_nat (length metrics)) 4); lia.
  - f_equal. lia.
Qed.

Lemma padMetrics_length (msize : Z) (metrics : list float) :
  Z.of_nat (length (predictor.padMetrics msize metrics))
  = Z.min 4 (Z.of_nat (length metrics))
    + Z.max 0 (msize - Z.of_nat (length metrics) + 1).
Proof.
  rewrite padMetrics_shape, length_app, length_firstn, repeat_length. lia.
Qed.

(** C4 -- the padded vector does not always have [metricSize] elements:
    six features with the default size of ten give four features followed
    by five zeros, nine elements in all. *)
Theorem padMetrics_six_features :
  predictor.padMetrics PredictorMetricSize sixFeatures
  = [0.5; 256; 1; 512; 0; 0; 0; 0; 0]%float
  /\ Z.of_nat (length (predictor.padMetrics PredictorMetricSize sixFeatures))
     <> PredictorMetricSize.
Proof.
  split; [reflexivity|]. rewrite padMetrics_length. vm_compute. discriminate.
Qed.

(** ** The deadline manager *)

Lemma thirtyDays_default : deadline.defaultDDLRelative = thirtyDays.
Proof. reflexivity. Qed.

Lemma tenMinutes_default : simpleddl.defaultDDLRelative = tenMinutes.
Proof. reflexivity. Qed.

Lemma ParsePodDeadline_run (env : Env) (pod : Pod) (s : State) :
  deadline.ParsePodDeadline env pod s
  = (Val (parsedDeadline env (clock env (tick s)) pod),
     if IsZero (CreationTimestamp pod) then withTick (S (tick s)) s else s).
Proof.
  unfold deadline.ParsePodDeadline, parsedDeadline, Add.
  rewrite thirtyDays_default.
  destruct (IsZero (CreationTimestamp pod)); [reflexivity|].
  destruct (index (Annotations pod) deadline.AnnotationKeyDDL) as [str|]; [|reflexivity].
  destruct (ParseDuration env str) as [d|]; [|reflexivity].
  destruct (d <? 0); reflexivity.
Qed.

Lemma GetPodDeadline_run (env : Env) (m : deadline.deadlineManager) (pod : Pod) (s : State) :
  deadline.GetPodDeadline env m pod s
  = (Val (deadlineAt env (deadline.cache m s) (clock env (tick s)) pod),
     afterLookup (deadline.cache m s) pod s).
Proof.
  unfold deadline.GetPodDeadline, deadlineAt, afterLookup, bind, gets.
  destruct (deadline.cache m s !! UID pod); [reflexivity|].
  apply ParsePodDeadline_run.
Qed.

(** C3 -- the fallback ladder of the absolute deadline, for
    [ParsePodDeadline] (default thirty days) and [parseDDL] (default ten
    minutes): without a creation timestamp the deadline is the clock
    reading plus the default; otherwise it is the creation time plus the
    default when the annotation is absent, unparseable or negative, and the
    creation time plus the parsed duration in the remaining case. *)
Theorem deadline_fallback_ladder (env : Env) (pod : Pod) (s : State) (now : Time) :
  let created := CreationTimestamp pod in
  let parse := ParseDuration env in
  let own := index (Annotations pod) deadline.AnnotationKeyDDL in
  let simple := index (Annotations pod) simpleddl.AnnotationKeyDDL in
  (created = 0 ->
     deadline.ParsePodDeadline env pod s
     = (Val (clock env (tick s) + thirtyDays), withTick (S (tick s)) s)
     /\ simpleddl.parseDDL parse now created pod = now + tenMinutes)
  /\ (created <> 0 -> noUsableDeadline parse own ->
      deadline.ParsePodDeadline env pod s = (Val (created + thirtyDays), s))
  /\ (created <> 0 -> noUsableDeadline parse simple ->
      simpleddl.parseDDL parse now created pod = created + tenMinutes)
  /\ (forall d, created <> 0 -> declaresDeadline parse own d ->
      deadline.ParsePodDeadline env pod s = (Val (created + d), s))
  /\ (forall d, created <> 0 -> declaresDeadline parse simple d ->
      simpleddl.parseDDL parse now created pod = created + d).
Proof.
  cbv zeta. rewrite ParsePodDeadline_run.
  unfold simpleddl.parseDDL, parsedDeadline, Add, IsZero.
  rewrite tenMinutes_default.
  split; [|split; [|split; [|split]]].
  - intros Hzero. rewrite Hzero. split; reflexivity.
  - intros Hc Hno. apply Z.eqb_neq in Hc. rewrite Hc.
    destruct Hno as [-> | (str & -> & [-> | (d & -> & Hneg)])]; try reflexivity.
    apply Z.ltb_lt in Hneg. now rewrite Hneg.
  - intros Hc Hno. apply Z.eqb_neq in Hc. rewrite Hc.
    destruct Hno as [-> | (str & -> & [-> | (d & -> & Hneg)])]; try reflexivity.
    apply Z.ltb_lt in Hneg. now rewrite Hneg.
  - intros d Hc (str & -> & -> & Hpos). apply Z.eqb_neq in Hc. rewrite Hc.
    apply Z.ltb_ge in Hpos. now rewrite Hpos.
  - intros d Hc (str & -> & -> & Hpos). apply Z.eqb_neq in Hc. rewrite Hc.
    apply Z.ltb_ge in Hpos. now rewrite Hpos.
Qed.

Lemma deadline_fallback_ladder_witness :
  let env := exampleEnv noPods [] in
  let fresh := examplePod "batch" "job-0" "u0" 0 None None in
  let bare := examplePod "batch" "job-1" "u1" 1000 None None in
  let declared :=
    examplePod "batch" "job-2" "u2" 1000 None
      (Some (<[deadline.AnnotationKeyDDL := "10s"%string]>
               (<[simpleddl.AnnotationKeyDDL := "20s"%string]> ∅))) in
  (deadline.ParsePodDeadline env fresh emptyState
   = (Val (1000000 + thirtyDays), withTick 1 emptyState)
   /\ simpleddl.parseDDL exampleParseDuration 77 0 fresh = 77 + tenMinutes)
  /\ deadline.ParsePodDeadline env bare emptyState = (Val (1000 + thirtyDays), emptyState)
  /\ simpleddl.parseDDL exampleParseDuration 77 1000 bare = 1000 + tenMinutes
  /\ deadline.ParsePodDeadline env declared emptyState
     = (Val (1000 + 10 * Second), emptyState)
  /\ simpleddl.parseDDL exampleParseDuration 77 1000 declared = 1000 + 20 * Second.
Proof.
  intros env fresh bare declared.
  destruct (deadline_fallback_ladder env fresh emptyState 77) as (Hzero & _).
  destruct (deadline_fallback_ladder env bare emptyState 77) as (_ & Hown & Hsimple & _).
  destruct (deadline_fallback_ladder env declared emptyState 77) as (_ & _ & _ & Hd & Hds).
  split; [exact (Hzero eq_refl)|].
  split; [apply Hown; [discriminate | left; reflexivity]|].
  split; [apply Hsimple; [discriminate | left; reflexivity]|].
  split.
  - apply Hd; [discriminate|].
    exists "10s"%string. split; [reflexivity|]. split; [reflexivity|]. vm_compute. discriminate.
  - apply Hds; [discriminate|].
    exists "20s"%string. split; [reflexivity|]. split; [reflexivity|]. vm_compute. discriminate.
Defined.

(** ** The queue order *)

Lemma String_compare_refl (a : string) : String.compare a a = Eq.
Proof.
  pose proof (String.compare_antisym a a) as Hanti.
  destruct (String.compare a a); [reflexivity|discriminate|discriminate].
Qed.

Lemma String_ltb_trichotomy (a b : string) :
  exactlyOne (String.ltb a b = true) (String.ltb b a = true) (a = b).
Proof.
  unfold exactlyOne, String.ltb.
  rewrite (String.compare_antisym a b).
  destruct (String.compare b a) eqn:Hba; simpl.
  - apply String.compare_eq_iff in Hba. subst b.
    right; right. repeat split; try discriminate; reflexivity.
  - assert (a <> b).
    { intros ->. rewrite String_compare_refl in Hba. discriminate. }
    right; left. repeat split; try discriminate; assumption.
  - assert (a <> b).
    { intros ->. rewrite String_compare_refl in Hba. discriminate. }
    left. repeat split; try discriminate; assumption.
Qed.

Lemma sortKeyLess_trichotomy (prio1 prio2 : Z) (ddl1 ddl2 : Time) (key1 key2 : string) :
  exactlyOne (sortKeyLess prio1 prio2 ddl1 ddl2 key1 key2 = true)
             (sortKeyLess prio2 prio1 ddl2 ddl1 key2 key1 = true)
             (prio1 = prio2 /\ ddl1 = ddl2 /\ key1 = key2).
Proof.
  unfold sortKeyLess.
  destruct (Z.eqb_spec prio1 prio2) as [Hp|Hp]; simpl.
  - subst prio2. rewrite Z.eqb_refl. simpl.
    destruct (Z.eqb_spec ddl1 ddl2) as [Hd|Hd].
    + subst ddl2. rewrite Z.eqb_refl.
      pose proof (String_ltb_trichotomy key1 key2) as Hkeys.
      unfold exactlyOne in *. intuition.
    + assert (Hd' : (ddl2 =? ddl1) = false) by (apply Z.eqb_neq; lia).
      rewrite Hd'. unfold exactlyOne.
      destruct (Z.ltb_spec ddl1 ddl2); destruct (Z.ltb_spec ddl2 ddl1); try lia;
        intuition discriminate.
  - assert (Hp' : (prio2 =? prio1) = false) by (apply Z.eqb_neq; lia).
    rewrite Hp'. simpl. unfold exactlyOne.
    destruct (Z.gtb_spec prio1 prio2); destruct (Z.gtb_spec prio2 prio1); try lia;
      intuition discriminate.
Qed.

Lemma cache_afterLookup (m : deadline.deadlineManager) (c : gmap string Time) (pod : Pod)
    (s : State) :
  deadline.cache m (afterLookup c pod s) = deadline.cache m s.
Proof.
  unfold afterLookup. destruct (c !! UID pod); [reflexivity|].
  destruct (IsZero (CreationTimestamp pod)); destruct m; reflexivity.
Qed.

Lemma cache_withCache (m : deadline.deadlineManager) (c : gmap string Time) (s : State) :
  deadline.cache m (deadline.withCache m c s) = c.
Proof. destruct m; reflexivity. Qed.

Lemma AddPodDeadline_run (env : Env) (m : deadline.deadlineManager) (pod : Pod) (s : State) :
  let ddl := deadlineAt env (deadline.cache m s) (clock env (tick s)) pod in
  deadline.AddPodDeadline env m pod s
  = (Val ddl,
     deadline.withCache m (<[UID pod := ddl]> (deadline.cache m s))
       (afterLookup (deadline.cache m s) pod s)).
Proof.
  unfold deadline.AddPodDeadline, bind. rewrite GetPodDeadline_run.
  unfold modify, ret. cbv zeta. now rewrite cache_afterLookup.
Qed.

Lemma deadlineAt_cached (env : Env) (c : gmap string Time) (now : Time) (pod : Pod)
    (ddl : Time) :
  c !! UID pod = Some ddl -> deadlineAt env c now pod = ddl.
Proof. unfold deadlineAt. now intros ->. Qed.

Lemma simpleddl_Less_sortKey (parse : string -> option Duration) (now1 now2 : Time)
    (p1 p2 : Pod) :
  simpleddl.Less parse now1 now2 p1 p2
  = sortKeyLess (PodPriority p1) (PodPriority p2)
      (simpleddl.parseDDL parse now1 (CreationTimestamp p1) p1)
      (simpleddl.parseDDL parse now2 (CreationTimestamp p2) p2)
      (GetNamespacedName p1) (GetNamespacedName p2).
Proof. reflexivity. Qed.

Lemma parseDDL_created (parse : string -> option Duration) (now now' : Time) (p : Pod) :
  IsZero (CreationTimestamp p) = false ->
  simpleddl.parseDDL parse now (CreationTimestamp p) p
  = simpleddl.parseDDL parse now' (CreationTimestamp p) p.
Proof. unfold simpleddl.parseDDL. now intros ->. Qed.

Lemma podDeadlines_afterLookup (c : gmap string Time) (pod : Pod) (s : State) :
  podDeadlines (afterLookup c pod s) = podDeadlines s.
Proof. exact (cache_afterLookup deadline.OfPlugin c pod s). Qed.

(** One comparison of two pods of equal priority by the EDF plug-in. *)
Lemma Less_run (env : Env) (p1 p2 : Pod) (s : State) :
  PodPriority p1 = PodPriority p2 ->
  let ddl1 := deadlineAt env (podDeadlines s) (clock env (tick s)) p1 in
  let s1 := withPodDeadlines (<[UID p1 := ddl1]> (podDeadlines s))
              (afterLookup (podDeadlines s) p1 s) in
  let ddl2 := deadlineAt env (podDeadlines s1) (clock env (tick s1)) p2 in
  let s2 := withPodDeadlines (<[UID p2 := ddl2]> (podDeadlines s1))
              (afterLookup (podDeadlines s1) p2 s1) in
  rtpreemptive.Less env p1 p2 s
  = (Val (sortKeyLess (PodPriority p1) (PodPriority p2) ddl1 ddl2
            (GetNamespacedName p1) (GetNamespacedName p2)), s2).
Proof.
  intros Hprio. cbv zeta.
  unfold rtpreemptive.Less, sortKeyLess, Equal, Before.
  rewrite Hprio, Z.eqb_refl. cbn [negb].
  unfold bind at 1. rewrite AddPodDeadline_run. cbv zeta.
  unfold bind at 1. rewrite AddPodDeadline_run. cbv zeta.
  cbn [deadline.cache deadline.withCache].
  match goal with |- (if ?b then _ else _) _ = _ => destruct b end; reflexivity.
Qed.

(** Two consecutive comparisons of pods of equal priority by the EDF
    plug-in use the same pair of deadlines, which the deadline manager
    holds afterwards. *)
Lemma Less_twice (env : Env) (s : State) (p1 p2 : Pod) :
  PodPriority p1 = PodPriority p2 ->
  exists (ddl1 ddl2 : Time) (s1 s2 : State),
    rtpreemptive.Less env p1 p2 s
    = (Val (sortKeyLess (PodPriority p1) (PodPriority p2) ddl1 ddl2
              (GetNamespacedName p1) (GetNamespacedName p2)), s1)
    /\ rtpreemptive.Less env p2 p1 s1
       = (Val (sortKeyLess (PodPriority p2) (PodPriority p1) ddl2 ddl1
                 (GetNamespacedName p2) (GetNamespacedName p1)), s2)
    /\ podDeadlines s2 !! UID p1 = Some ddl1
    /\ podDeadlines s2 !! UID p2 = Some ddl2.
Proof.
  intros Hprio.
  pose proof (Less_run env p1 p2 s Hprio) as Hfirst. cbv zeta in Hfirst.
  set (ddl1 := deadlineAt env (podDeadlines s) (clock env (tick s)) p1) in *.
  set (s1 := withPodDeadlines (<[UID p1 := ddl1]> (podDeadlines s))
               (afterLookup (podDeadlines s) p1 s)) in *.
  set (ddl2 := deadlineAt env (podDeadlines s1) (clock env (tick s1)) p2) in *.
  set (s2 := withPodDeadlines (<[UID p2 := ddl2]> (podDeadlines s1))
               (afterLookup (podDeadlines s1) p2 s1)) in *.
  assert (Hc1 : podDeadlines s1 = <[UID p1 := ddl1]> (podDeadlines s)) by reflexivity.
  assert (Hc2 : podDeadlines s2 = <[UID p2 := ddl2]> (podDeadlines s1)) by reflexivity.
  assert (Hsame : UID p1 = UID p2 -> ddl2 = ddl1).
  { intros Hu. subst ddl2. apply deadlineAt_cached.
    rewrite Hc1, <- Hu. apply lookup_insert_eq. }
  pose proof (Less_run env p2 p1 s2 (eq_sym Hprio)) as Hsecond. cbv zeta in Hsecond.
  rewrite (deadlineAt_cached env (podDeadlines s2) _ p2 ddl2) in Hsecond
    by (rewrite Hc2; apply lookup_insert_eq).
  set (s3 := withPodDeadlines (<[UID p2 := ddl2]> (podDeadlines s2))
               (afterLookup (podDeadlines s2) p2 s2)) in *.
  assert (Hc3 : podDeadlines s3 = <[UID p2 := ddl2]> (podDeadlines s2)) by reflexivity.
  assert (H1 : podDeadlines s3 !! UID p1 = Some ddl1).
  { rewrite Hc3, Hc2, Hc1. destruct (decide (UID p1 = UID p2)) as [Hu|Hu].
    - rewrite <- Hu, lookup_insert_eq. f_equal. now apply Hsame.
    - rewrite !lookup_insert_ne by congruence. apply lookup_insert_eq. }
  rewrite (deadlineAt_cached env (podDeadlines s3) _ p1 ddl1 H1) in Hsecond.
  set (s4 := withPodDeadlines (<[UID p1 := ddl1]> (podDeadlines s3))
               (afterLookup (podDeadlines s3) p1 s3)) in *.
  assert (Hc4 : podDeadlines s4 = <[UID p1 := ddl1]> (podDeadlines s3)) by reflexivity.
  exists ddl1, ddl2, s2, s4.
  split; [exact Hfirst|]. split; [exact Hsecond|].
  rewrite Hc4. split; [apply lookup_insert_eq|].
  destruct (decide (UID p1 = UID p2)) as [Hu|Hu].
  - rewrite <- Hu, lookup_insert_eq. f_equal. symmetry. now apply Hsame.
  - rewrite lookup_insert_ne by congruence. rewrite Hc3. apply lookup_insert_eq.
Qed.

Lemma Less_priorities_differ (env : Env) (p1 p2 : Pod) (s : State) :
  PodPriority p1 <> PodPriority p2 ->
  rtpreemptive.Less env p1 p2 s
  = (Val (sortKeyLess (PodPriority p1) (PodPriority p2) 0 0 EmptyString EmptyString), s).
Proof.
  intros Hprio. unfold rtpreemptive.Less, sortKeyLess.
  apply Z.eqb_neq in Hprio. rewrite Hprio. reflexivity.
Qed.

(** C1, as the code has it -- [Less] is a strict total order on the sort key
    (priority, absolute deadline, namespaced name): exactly one of
    [Less p1 p2], [Less p2 p1] and "same priority, same deadline, same
    namespaced name" holds, so [Less] is never true in both directions.
    For SimpleDDL this is for pods that carry a creation timestamp, whatever
    the clock reads; for the EDF plug-in it is for two consecutive calls,
    the deadlines being the ones the deadline manager then holds. *)
Theorem Less_strict_total_order :
  (forall (parse : string -> option Duration) (now1 now2 now3 now4 : Time) (p1 p2 : Pod),
      IsZero (CreationTimestamp p1) = false ->
      IsZero (CreationTimestamp p2) = false ->
      exactlyOne
        (simpleddl.Less parse now1 now2 p1 p2 = true)
        (simpleddl.Less parse now3 now4 p2 p1 = true)
        (PodPriority p1 = PodPriority p2
         /\ simpleddl.parseDDL parse now1 (CreationTimestamp p1) p1
            = simpleddl.parseDDL parse now2 (CreationTimestamp p2) p2
         /\ GetNamespacedName p1 = GetNamespacedName p2))
  /\
  (forall (env : Env) (s : State) (p1 p2 : Pod),
      exists (b1 b2 : bool) (s1 s2 : State),
        rtpreemptive.Less env p1 p2 s = (Val b1, s1)
        /\ rtpreemptive.Less env p2 p1 s1 = (Val b2, s2)
        /\ exactlyOne (b1 = true) (b2 = true)
             (PodPriority p1 = PodPriority p2
              /\ podDeadlines s2 !! UID p1 = podDeadlines s2 !! UID p2
              /\ GetNamespacedName p1 = GetNamespacedName p2)).
Proof.
  split.
  - intros parse now1 now2 now3 now4 p1 p2 Hc1 Hc2.
    rewrite !simpleddl_Less_sortKey.
    rewrite (parseDDL_created parse now4 now1 p1 Hc1).
    rewrite (parseDDL_created parse now3 now2 p2 Hc2).
    apply sortKeyLess_trichotomy.
  - intros env s p1 p2.
    destruct (Z.eq_dec (PodPriority p1) (PodPriority p2)) as [Hprio|Hprio].
    + destruct (Less_twice env s p1 p2 Hprio)
        as (ddl1 & ddl2 & s1 & s2 & Hfirst & Hsecond & Hd1 & Hd2).
      eexists _, _, s1, s2. split; [exact Hfirst|]. split; [exact Hsecond|].
      rewrite Hd1, Hd2.
      pose proof (sortKeyLess_trichotomy (PodPriority p1) (PodPriority p2) ddl1 ddl2
                    (GetNamespacedName p1) (GetNamespacedName p2)) as Htri.
      unfold exactlyOne in *.
      assert (Hinj : Some ddl1 = Some ddl2 <-> ddl1 = ddl2)
        by (split; [now intros [= ->]|now intros ->]).
      tauto.
    + eexists _, _, s, s.
      split; [apply Less_priorities_differ; assumption|].
      split; [apply Less_priorities_differ; congruence|].
      pose proof (sortKeyLess_trichotomy (PodPriority p1) (PodPriority p2) 0 0
                    EmptyString EmptyString) as Htri.
      unfold exactlyOne in *. tauto.
Qed.

Lemma Less_strict_total_order_witness :
  let early := examplePod "batch" "job-1" "u1" 1000 (Some 10)
                 (Some {[simpleddl.AnnotationKeyDDL := "10s"%string]}) in
  let late := examplePod "batch" "job-2" "u2" 1000 (Some 10)
                (Some {[simpleddl.AnnotationKeyDDL := "20s"%string]}) in
  exactlyOne
    (simpleddl.Less exampleParseDuration 5 6 early late = true)
    (simpleddl.Less exampleParseDuration 7 8 late early = true)
    (PodPriority early = PodPriority late
     /\ simpleddl.parseDDL exampleParseDuration 5 (CreationTimestamp early) early
        = simpleddl.parseDDL exampleParseDuration 6 (CreationTimestamp late) late
     /\ GetNamespacedName early = GetNamespacedName late).
Proof.
  intros early late.
  apply (proj1 Less_strict_total_order exampleParseDuration 5 6 7 8 early late);
    reflexivity.
Defined.

(** C1, as stated, fails.  Two SimpleDDL pods of equal priority without a
    creation timestamp are each ordered before the other, since every
    comparison reads the clock anew for both; and for both plug-ins two pods
    with one namespaced name and different priorities satisfy two of the
    three alternatives. *)
Lemma Less_exactly_one_fails :
  let a := examplePod "batch" "job-a" "ua" 0 None None in
  let b := examplePod "batch" "job-b" "ub" 0 None None in
  let high := examplePod "batch" "job" "u1" 1000 (Some 100) None in
  let low := examplePod "batch" "job" "u2" 1000 (Some 10) None in
  let env := exampleEnv noPods [] in
  (simpleddl.Less exampleParseDuration 100 101 a b = true
   /\ simpleddl.Less exampleParseDuration 102 103 b a = true)
  /\ ~ exactlyOne
         (simpleddl.Less exampleParseDuration 100 101 a b = true)
         (simpleddl.Less exampleParseDuration 102 103 b a = true)
         (GetNamespacedName a = GetNamespacedName b)
  /\ ~ exactlyOne
         (simpleddl.Less exampleParseDuration 100 101 high low = true)
         (simpleddl.Less exampleParseDuration 102 103 low high = true)
         (GetNamespacedName high = GetNamespacedName low)
  /\ ~ exactlyOne
         (fst (rtpreemptive.Less env high low emptyState) = Val true)
         (fst (rtpreemptive.Less env low high
                 (snd (rtpreemptive.Less env high low emptyState))) = Val true)
         (GetNamespacedName high = GetNamespacedName low).
Proof.
  intros a b high low env.
  assert (Hab : simpleddl.Less exampleParseDuration 100 101 a b = true) by reflexivity.
  assert (Hba : simpleddl.Less exampleParseDuration 102 103 b a = true) by reflexivity.
  assert (Hhl : simpleddl.Less exampleParseDuration 100 101 high low = true) by reflexivity.
  assert (Hkey : GetNamespacedName high = GetNamespacedName low) by reflexivity.
  assert (Hedf : fst (rtpreemptive.Less env high low emptyState) = Val true) by reflexivity.
  unfold exactlyOne. repeat split; try assumption; tauto.
Qed.

(** ** Pre-filter *)

(** The comparison of the candidate's UID with the UID of the latest pod
    is reached with a nil latest pod whenever the lister fails for a pod
    that is marked paused, is not waiting and is not pending. *)
Lemma PreFilter_nil_latest (env : Env) (preemptionManager : rtpreemptive.Manager)
    (pod : Pod) (s : State) (e : error) :
  podLister env (Namespace pod) (Name pod) = inr e ->
  preemption.IsPodMarkedPaused pod = true ->
  GetWaitingPod env (UID pod) = false ->
  PodPhase_eqb (Phase pod) PodPending = false ->
  exists (msg : string) (s' : State),
    rtpreemptive.PreFilter env preemptionManager pod s = (Panic msg, s').
Proof.
  intros Hlister Hmarked Hwaiting Hphase.
  unfold rtpreemptive.PreFilter. rewrite Hlister. cbv zeta.
  rewrite Hmarked, Hwaiting, Hphase. cbn [orb]. unfold bind.
  destruct (rtpreemptive.GetPausedCandidateOnNode preemptionManager (NodeName pod) s)
    as [[found|msg] s'].
  - exists nilDereference, s'. reflexivity.
  - exists msg, s'. reflexivity.
Qed.

(** C9 -- [PreFilter] does not return a status when the lister has no
    latest pod for a pod that is marked paused, is not waiting and is not
    pending: whatever the preemption manager does, the hook ends in a
    run-time panic (the candidate's UID is compared with the UID of the nil
    latest pod). *)
Theorem PreFilter_panics_without_latest_pod :
  forall (preemptionManager : rtpreemptive.Manager) (s : State),
    podLister (exampleEnv noPods []) (Namespace pausedPod) (Name pausedPod)
    = inr (External "not found")
    /\ exists (msg : string) (s' : State),
         rtpreemptive.PreFilter (exampleEnv noPods []) preemptionManager pausedPod s
         = (Panic msg, s').
Proof.
  intros mgr s. split; [reflexivity|].
  apply (PreFilter_nil_latest _ mgr pausedPod s (External "not found")); reflexivity.
Qed.

(** When the lister does have the pod, the hook returns a status with such
    a manager. *)
Example PreFilter_with_latest_pod :
  rtpreemptive.PreFilter (exampleEnv (fun _ _ => inl pausedPod) []) idleManager
    pausedPod emptyState
  = (Val (NewStatus Skip ["skipped because pod is resumed successfully"%string]),
     emptyState).
Proof. reflexivity. Qed.

(** ** Post-filter and the preemptible annotation *)

(** C5 -- the post-filter selects a resident that carries
    [preemptible = false]: on a node whose only resident is such a pod with
    a later deadline, [findCandidateOnNode] returns it, and [PostFilter]
    hands it to [PauseCandidate] of whatever preemption manager it runs
    with. *)
Theorem PostFilter_pauses_non_preemptible :
  let env := exampleEnv noPods [node1] in
  let candidate := {| preemption.Candidate_NodeName := "node-1";
                      preemption.Candidate_Pod := nonPreemptibleResident |} in
  index (Annotations nonPreemptibleResident) annotations.AnnotationKeyPreemptible
  = Some "false"%string
  /\ rtpreemptive.findCandidateOnNode env arrivingPod node1 emptyState
     = (Val (Some nonPreemptibleResident), emptyState)
  /\ forall (preemptionManager : rtpreemptive.Manager),
       rtpreemptive.PostFilter env preemptionManager arrivingPod ∅ emptyState
       = (r <- rtpreemptive.PauseCandidate preemptionManager candidate ;;
          match snd r with
          | Some e => ret (None, AsStatus e)
          | None =>
              ret (Some (NewPostFilterResultWithNominatedNode "node-1"),
                   NewStatus Success [])
          end) emptyState.
Proof.
  intros env candidate. split; [reflexivity|]. split; [reflexivity|].
  intros mgr. reflexivity.
Qed.

(** ** Filter *)

Lemma Filter_after_resume_check (env : Env) (preemptionManager : rtpreemptive.Manager)
    (pod : Pod) (nodeInfo : NodeInfo) (s s' : State) (resumed : bool) :
  (0 <? len (NodeName pod))
  && negb (String.eqb (NodeName pod) (Node_Name (Node nodeInfo))) = false ->
  rtpreemptive.resumePausedFirst env preemptionManager pod nodeInfo s = (Val resumed, s') ->
  rtpreemptive.Filter env preemptionManager pod nodeInfo s
  = (Val (if resumed
          then NewStatus UnschedulableAndUnresolvable [rtpreemptive.resumeMessage]
          else fitStatus (Fits env pod (viewWithoutPaused nodeInfo))), s').
Proof.
  intros Hbound Hresume. unfold rtpreemptive.Filter. rewrite Hbound.
  unfold bind. rewrite Hresume. destruct resumed; [reflexivity|].
  fold (viewWithoutPaused nodeInfo).
  destruct (Fits env pod (viewWithoutPaused nodeInfo)); reflexivity.
Qed.

Lemma len_positive (str : string) : str <> EmptyString -> (0 <? len str) = true.
Proof.
  intros Hne. apply Z.ltb_lt. unfold len.
  destruct str; [contradiction|]. simpl String.length. lia.
Qed.

(** C8 -- the decisions of [Filter]: a pod bound to another node is
    unschedulable and unresolvable there; otherwise, unless the resume check
    resumed a paused resident (which also is unschedulable and
    unresolvable), the status is the one of the resource fit on the node
    without its paused residents: [Unschedulable] with all insufficiency
    reasons, or success when there is none.  The resume check does nothing
    when the manager has no paused candidate on the node. *)
Theorem Filter_decisions (env : Env) (preemptionManager : rtpreemptive.Manager)
    (pod : Pod) (nodeInfo : NodeInfo) (s : State) :
  let node := Node_Name (Node nodeInfo) in
  let fit := fitStatus (Fits env pod (viewWithoutPaused nodeInfo)) in
  (NodeName pod <> EmptyString -> NodeName pod <> node ->
   rtpreemptive.Filter env preemptionManager pod nodeInfo s
   = (Val (NewStatus UnschedulableAndUnresolvable []), s))
  /\ (NodeName pod = EmptyString \/ NodeName pod = node ->
      forall (resumed : bool) (s' : State),
        rtpreemptive.resumePausedFirst env preemptionManager pod nodeInfo s
        = (Val resumed, s') ->
        rtpreemptive.Filter env preemptionManager pod nodeInfo s
        = (Val (if resumed
                then NewStatus UnschedulableAndUnresolvable [rtpreemptive.resumeMessage]
                else fit), s'))
  /\ (NodeName pod = EmptyString \/ NodeName pod = node ->
      forall (s' : State),
        rtpreemptive.GetPausedCandidateOnNode preemptionManager node s = (Val None, s') ->
        rtpreemptive.Filter env preemptionManager pod nodeInfo s = (Val fit, s')).
Proof.
  cbv zeta.
  assert (Hbound : NodeName pod = EmptyString
                   \/ NodeName pod = Node_Name (Node nodeInfo) ->
                   (0 <? len (NodeName pod))
                   && negb (String.eqb (NodeName pod) (Node_Name (Node nodeInfo))) = false).
  { intros [-> | ->]; [reflexivity|].
    rewrite String.eqb_refl. apply andb_false_r. }
  split; [|split].
  - intros Hne Hother. unfold rtpreemptive.Filter.
    rewrite (len_positive _ Hne).
    apply String.eqb_neq in Hother. rewrite Hother. reflexivity.
  - intros Hb resumed s' Hresume.
    apply Filter_after_resume_check; [now apply Hbound|assumption].
  - intros Hb s' Hnone.
    apply (Filter_after_resume_check env preemptionManager pod nodeInfo s s' false);
      [now apply Hbound|].
    unfold rtpreemptive.resumePausedFirst, bind. now rewrite Hnone.
Qed.

Lemma Filter_decisions_witness :
  let env := exampleEnv noPods [node1] in
  rtpreemptive.Filter env idleManager pausedPod
    {| Node := {| Node_Name := "node-2" |}; Pods := [] |} emptyState
  = (Val (NewStatus UnschedulableAndUnresolvable []), emptyState)
  /\ rtpreemptive.Filter env idleManager arrivingPod node1 emptyState
     = (Val None, emptyState).
Proof.
  intros env. split.
  - apply (proj1 (Filter_decisions env idleManager pausedPod
                    {| Node := {| Node_Name := "node-2" |}; Pods := [] |} emptyState));
      discriminate.
  - apply (proj2 (proj2 (Filter_decisions env idleManager arrivingPod node1 emptyState)));
      [left; reflexivity | reflexivity].
Defined.

Example Filter_insufficient_resources :
  rtpreemptive.Filter (crowdedEnv noPods) idleManager arrivingPod node1 emptyState
  = (Val (NewStatus Unschedulable
            ["Insufficient cpu"%string; "Insufficient memory"%string]), emptyState).
Proof. reflexivity. Qed.

(** ** The preemption manager: pausing *)

Lemma onlyClock_refl (s : State) : onlyClock s s.
Proof. split; [lia|]. now destruct s. Qed.

Lemma onlyClock_trans (s1 s2 s3 : State) :
  onlyClock s1 s2 -> onlyClock s2 s3 -> onlyClock s1 s3.
Proof.
  intros [H1 E1] [H2 E2]. split; [lia|].
  rewrite E2, E1. reflexivity.
Qed.

Lemma onlyClock_afterLookup (c : gmap string Time) (pod : Pod) (s : State) :
  onlyClock s (afterLookup c pod s).
Proof.
  unfold afterLookup. destruct (c !! UID pod); [apply onlyClock_refl|].
  destruct (IsZero (CreationTimestamp pod)); [|apply onlyClock_refl].
  split; simpl; [lia|reflexivity].
Qed.

Lemma updatePod_run (env : Env) (pod : Pod) (s : State) :
  preemption.updatePod env pod s
  = match Update env pod with
    | Some e => (Val (Some e), s)
    | None => (Val None, withApiWrites (pod :: apiWrites s) s)
    end.
Proof. unfold preemption.updatePod. destruct (Update env pod); reflexivity. Qed.

(** C6 -- [PauseCandidate] and the paused map: when the lister has no
    latest pod, or the write of the pod marked [pause-pod = true] fails, an
    error is returned and nothing changed; when the write succeeds, the
    written pod is recorded by the store and the paused map gets the entry
    from the candidate's key to the candidate's node.  The one remaining
    case, a latest pod without annotation map, ends in a panic before any
    write, and nothing changed either. *)
Theorem PauseCandidate_atomic (env : Env) (candidate : preemption.Candidate) (s : State) :
  let pod := preemption.Candidate_Pod candidate in
  let latest := podLister env (Namespace pod) (Name pod) in
  (forall e, latest = inr e ->
     preemption.PauseCandidate env candidate s
     = (Val (Some (Errorf "failed to get latest pod: " e)), s))
  /\ (forall latestPod entries e,
        latest = inl latestPod -> Annotations latestPod = Some entries ->
        Update env (withPauseFlag "true" latestPod entries) = Some e ->
        preemption.PauseCandidate env candidate s
        = (Val (Some (Errorf "failed to pause pod: " e)), s))
  /\ (forall latestPod entries,
        latest = inl latestPod -> Annotations latestPod = Some entries ->
        Update env (withPauseFlag "true" latestPod entries) = None ->
        exists s' : State,
          preemption.PauseCandidate env candidate s = (Val None, s')
          /\ pausedPods s'
             = <[preemption.toCacheKey pod := preemption.Candidate_NodeName candidate]>
                 (pausedPods s)
          /\ apiWrites s' = withPauseFlag "true" latestPod entries :: apiWrites s)
  /\ (forall latestPod,
        latest = inl latestPod -> Annotations latestPod = None ->
        preemption.PauseCandidate env candidate s = (Panic nilMapAssignment, s)).
Proof.
  cbv zeta. unfold preemption.PauseCandidate. repeat split.
  - intros e ->. reflexivity.
  - intros latestPod entries e -> Hann Hupdate.
    unfold bind, preemption.markPodToPaused. rewrite Hann. unfold ret at 1.
    rewrite updatePod_run. fold (withPauseFlag "true" latestPod entries).
    now rewrite Hupdate.
  - intros latestPod entries -> Hann Hupdate.
    unfold bind, preemption.markPodToPaused. rewrite Hann. unfold ret at 1.
    rewrite updatePod_run. fold (withPauseFlag "true" latestPod entries).
    rewrite Hupdate. unfold preemption.AddPausedPod, bind, modify.
    rewrite AddPodDeadline_run. cbv zeta. unfold ret.
    eexists. split; [reflexivity|].
    cbn [deadline.cache deadline.withCache].
    unfold afterLookup.
    repeat match goal with
           | |- context [match ?x with _ => _ end] => destruct x
           end; split; reflexivity.
  - intros latestPod -> Hann.
    unfold bind, preemption.markPodToPaused. now rewrite Hann.
Qed.

Lemma PauseCandidate_atomic_witness :
  let env := exampleEnv (fun _ _ => inl nonPreemptibleResident) [node1] in
  let candidate := {| preemption.Candidate_NodeName := "node-1";
                      preemption.Candidate_Pod := nonPreemptibleResident |} in
  exists s' : State,
    preemption.PauseCandidate env candidate emptyState = (Val None, s')
    /\ pausedPods s' = <["batch/resident"%string := "node-1"%string]> ∅
    /\ exists marked, apiWrites s' = [marked]
         /\ index (Annotations marked) preemption.AnnotationKeyPausePod = Some "true"%string.
Proof.
  intros env candidate.
  destruct (PauseCandidate_atomic env candidate emptyState) as (_ & _ & Hok & _).
  destruct (Hok nonPreemptibleResident
              (<[annotations.AnnotationKeyPreemptible := "false"%string]>
                 {[deadline.AnnotationKeyDDL := "1h"%string]})
              eq_refl eq_refl eq_refl) as (s' & Hrun & Hpaused & Hwrites).
  exists s'. split; [exact Hrun|]. split; [exact Hpaused|].
  eexists. split; [exact Hwrites|]. reflexivity.
Defined.

(** ** The preemption manager: resuming *)

Lemma reported_weaken (env : Env) (c : gmap string Time) (lo lo' hi hi' : nat) (p : Pod)
    (d : Time) :
  (lo <= lo')%nat -> (hi' <= hi)%nat ->
  reported env c lo' hi' p d -> reported env c lo hi p d.
Proof. intros Hlo Hhi (n & Hn & ->). exists n. split; [lia|reflexivity]. Qed.

Lemma onlyClock_fields (s s' : State) :
  onlyClock s s' ->
  (tick s <= tick s')%nat
  /\ pausedPods s' = pausedPods s /\ apiWrites s' = apiWrites s
  /\ ownPodDeadlines s' = ownPodDeadlines s /\ podDeadlines s' = podDeadlines s.
Proof. intros [Hle ->]. repeat split; assumption. Qed.

Lemma passedOver_weaken (env : Env) (s s1 : State) (hi hi1 : nat) (W : Pod) (key : string) :
  onlyClock s s1 -> (hi1 <= hi)%nat ->
  passedOver env s1 hi1 W key -> passedOver env s hi W key.
Proof.
  intros Hclock Hhi. apply onlyClock_fields in Hclock.
  destruct Hclock as (Hle & Hp & _ & Ho & _).
  unfold passedOver. rewrite Hp, Ho.
  destruct (listedFor env key) as [R|]; [|trivial].
  intros [(dR & dW & HR & HW & Hlt)|Hrest]; [left|right; exact Hrest].
  exists dR, dW. repeat split; try assumption;
    eapply reported_weaken; try eassumption; lia.
Qed.

Lemma resumedEntry_weaken (env : Env) (s s1 s' : State) (W : Pod) (key : string)
    (c : preemption.Candidate) :
  onlyClock s s1 -> resumedEntry env s1 s' W key c -> resumedEntry env s s' W key c.
Proof.
  intros Hclock. apply onlyClock_fields in Hclock.
  destruct Hclock as (Hle & Hp & Ha & Ho & _).
  unfold resumedEntry. rewrite Hp, Ha, Ho.
  intros (R & entries & nodeName & node & H1 & H2 & H3 & H4 & H5 & H6
          & (dR & dW & HR & HW & Hd) & H8 & H9 & H10).
  exists R, entries, nodeName, node. repeat split; try assumption.
  exists dR, dW. repeat split; try assumption;
    eapply reported_weaken; try eassumption; lia.
Qed.

(** An entry that is passed over is put in front of the outcome of the scan
    of the remaining keys. *)
Lemma scanOutcome_skip (env : Env) (W : Pod) (key : string) (rest : list string)
    (s s1 : State) (r : Res (option preemption.Candidate)) (s' : State) :
  onlyClock s s1 ->
  (forall hi, (tick s1 <= hi)%nat -> passedOver env s hi W key) ->
  scanOutcome env W rest s1 r s' ->
  scanOutcome env W (key :: rest) s r s'.
Proof.
  intros Hclock Hkey [Hle Hout].
  pose proof (onlyClock_fields _ _ Hclock) as (Hle1 & Hp & Ha & _ & _).
  split; [lia|].
  destruct r as [[c|]|msg].
  - destruct Hout as (before & k & after & -> & Hbefore & Hres).
    exists (key :: before), k, after. split; [reflexivity|]. split.
    + constructor; [apply Hkey; lia|].
      eapply Forall_impl; [exact Hbefore|]. intros k'.
      apply passedOver_weaken; [assumption|lia].
    + eapply resumedEntry_weaken; eassumption.
  - destruct Hout as (Hall & Hp' & Ha'). split; [|split; congruence].
    constructor; [apply Hkey; lia|].
    eapply Forall_impl; [exact Hall|]. intros k'.
    apply passedOver_weaken; [assumption|lia].
  - destruct Hout as ((k & R & Hin & HR & Hnil) & Hp' & Ha').
    split; [|split; congruence].
    exists k, R. split; [now right|]. split; assumption.
Qed.

Lemma GetPausedPodNode_run (env : Env) (pod : Pod) (s : State) :
  preemption.GetPausedPodNode env pod s
  = (Val match pausedPods s !! preemption.toCacheKey pod with
         | None => inr ErrPodNotFound
         | Some nodeName =>
             match nodeLister env nodeName with
             | inr e => inr (Errorf ("failed to get node " ++ nodeName ++ ": ") e)
             | inl node => inl node
             end
         end, s).
Proof.
  unfold preemption.GetPausedPodNode, bind, gets.
  destruct (pausedPods s !! preemption.toCacheKey pod) as [nodeName|]; [|reflexivity].
  destruct (nodeLister env nodeName); reflexivity.
Qed.

Lemma RemovePausedPod_run (env : Env) (pod : Pod) (s : State) :
  exists s' : State,
    preemption.RemovePausedPod pod s = (Val tt, s')
    /\ pausedPods s' = delete (preemption.toCacheKey pod) (pausedPods s)
    /\ apiWrites s' = apiWrites s /\ tick s' = tick s.
Proof.
  unfold preemption.RemovePausedPod, deadline.RemovePodDeadline, bind, modify.
  eexists. split; [reflexivity|]. repeat split.
Qed.

(** The scan of the paused entries, for every list of keys and every state. *)
Lemma resumeScan_outcome (env : Env) (W : Pod) (keys : list string) :
  forall s : State,
  exists (r : Res (option preemption.Candidate)) (s' : State),
    preemption.resumeScan env keys W s = (r, s') /\ scanOutcome env W keys s r s'.
Proof.
  induction keys as [|key rest IH]; intros s.
  - exists (Val None), s. split; [reflexivity|].
    split; [lia|]. repeat split. constructor.
  - cbn [preemption.resumeScan].
    assert (Hlisted : listedFor env key
                      = podLister env (fst (preemption.parseCacheKey key))
                          (snd (preemption.parseCacheKey key))) by reflexivity.
    destruct (preemption.parseCacheKey key) as [ns name]. cbn [fst snd] in Hlisted.
    destruct (podLister env ns name) as [R|e] eqn:HR.
    2:{ destruct (IH s) as (r & s' & Hrun & Hout). exists r, s'.
        split; [exact Hrun|].
        eapply scanOutcome_skip; [apply onlyClock_refl| |exact Hout].
        intros hi _. unfold passedOver. now rewrite Hlisted. }
    unfold bind at 1. rewrite GetPodDeadline_run.
    cbn [deadline.cache].
    set (dR := deadlineAt env (ownPodDeadlines s) (clock env (tick s)) R).
    set (s1 := afterLookup (ownPodDeadlines s) R s).
    assert (Hclock1 : onlyClock s s1) by apply onlyClock_afterLookup.
    pose proof (onlyClock_fields _ _ Hclock1) as (Hle1 & Hp1 & Ha1 & Ho1 & _).
    unfold bind at 1. rewrite GetPodDeadline_run.
    cbn [deadline.cache]. rewrite Ho1.
    set (dW := deadlineAt env (ownPodDeadlines s) (clock env (tick s1)) W).
    set (s2 := afterLookup (ownPodDeadlines s) W s1).
    assert (Hclock12 : onlyClock s1 s2) by apply onlyClock_afterLookup.
    assert (Hclock2 : onlyClock s s2) by (eapply onlyClock_trans; eassumption).
    pose proof (onlyClock_fields _ _ Hclock12) as (Hle12 & _).
    pose proof (onlyClock_fields _ _ Hclock2) as (Hle2 & Hp2 & Ha2 & Ho2 & _).
    assert (HrepR : forall hi, (tick s2 <= hi)%nat ->
                    reported env (ownPodDeadlines s) (tick s) hi R dR).
    { intros hi Hhi. exists (tick s). split; [lia|reflexivity]. }
    assert (HrepW : forall hi, (tick s2 <= hi)%nat ->
                    reported env (ownPodDeadlines s) (tick s) hi W dW).
    { intros hi Hhi. exists (tick s1). split; [lia|reflexivity]. }
    assert (Hskip : (forall hi, (tick s2 <= hi)%nat -> passedOver env s hi W key) ->
                    exists r s', preemption.resumeScan env rest W s2 = (r, s')
                                 /\ scanOutcome env W (key :: rest) s r s').
    { intros Hpassed. destruct (IH s2) as (r & s' & Hrun & Hout). exists r, s'.
      split; [exact Hrun|]. eapply scanOutcome_skip; eassumption. }
    destruct (Before dW dR) eqn:Hbefore.
    { apply Hskip. intros hi Hhi. unfold passedOver. rewrite Hlisted.
      left. exists dR, dW. split; [now apply HrepR|]. split; [now apply HrepW|].
      now apply Z.ltb_lt. }
    unfold bind at 1. rewrite GetPausedPodNode_run. rewrite Hp2.
    destruct (pausedPods s !! preemption.toCacheKey R) as [nodeName|] eqn:Hnode.
    2:{ apply Hskip. intros hi Hhi. unfold passedOver. rewrite Hlisted.
        right; left. exact Hnode. }
    destruct (nodeLister env nodeName) as [node|e] eqn:Hlookup.
    2:{ apply Hskip. intros hi Hhi. unfold passedOver. rewrite Hlisted.
        right; right; left. exists nodeName, e. split; assumption. }
    unfold bind at 1. unfold preemption.markPodToResume.
    destruct (Annotations R) as [entries|] eqn:Hann.
    2:{ exists (Panic nilMapAssignment), s2. split; [reflexivity|].
        split; [lia|]. split; [|split; assumption].
        exists key, R. split; [now left|]. split; [exact Hlisted|exact Hann]. }
    unfold ret at 1. fold (withPauseFlag "false" R entries).
    unfold bind at 1. rewrite updatePod_run.
    destruct (Update env (withPauseFlag "false" R entries)) as [e|] eqn:Hupdate.
    { apply Hskip. intros hi Hhi. unfold passedOver. rewrite Hlisted.
      right; right; right. exists entries, e. split; [exact Hann|exact Hupdate]. }
    unfold bind at 1.
    destruct (RemovePausedPod_run env (withPauseFlag "false" R entries)
                (withApiWrites (withPauseFlag "false" R entries :: apiWrites s2) s2))
      as (s4 & Hremove & Hp4 & Ha4 & Ht4).
    rewrite Hremove. eexists _, s4. split; [reflexivity|].
    cbn in Ht4. split; [lia|].
    exists [], key, rest. split; [reflexivity|]. split; [constructor|].
    exists R, entries, nodeName, node.
    split; [exact Hlisted|]. split; [exact Hann|]. split; [reflexivity|].
    split; [exact Hnode|]. split; [exact Hlookup|]. split; [reflexivity|].
    split.
    { exists dR, dW. split; [apply HrepR; lia|]. split; [apply HrepW; lia|].
      apply Z.ltb_ge in Hbefore. exact Hbefore. }
    split; [exact Hupdate|].
    split; [rewrite Ha4; cbn; now rewrite Ha2|].
    rewrite Hp4. cbn. now rewrite Hp2.
Qed.

Lemma Split_single (sep : ascii) (str piece : string) :
  Split str sep = [piece] -> str = piece.
Proof.
  revert piece. induction str as [|c str IH]; intros piece; simpl.
  - now intros [= <-].
  - destruct (Ascii.eqb c sep).
    + intros [= _ Hrest]. now apply Split_nonempty in Hrest.
    + destruct (Split str sep) as [|h t] eqn:E; [now apply Split_nonempty in E|].
      intros [= <- ->]. now rewrite (IH h eq_refl).
Qed.

Lemma Split_two_join (sep : ascii) (str a b : string) :
  Split str sep = [a; b] -> str = (a ++ String sep b)%string.
Proof.
  revert a. induction str as [|c str IH]; intros a; simpl; [discriminate|].
  destruct (Ascii.eqb c sep) eqn:Hc.
  - intros [= <- Hrest]. apply Ascii.eqb_eq in Hc. subst c.
    now rewrite (Split_single _ _ _ Hrest).
  - destruct (Split str sep) as [|h t] eqn:E; [discriminate|].
    intros [= <- ->]. now rewrite (IH h eq_refl).
Qed.

(** A key with one slash is the key of the pod the lister returns for it,
    when the lister returns the pod it is asked for. *)
Lemma toCacheKey_listed (key : string) (R : Pod) :
  length (Split key "/") = 2%nat ->
  (Namespace R, Name R) = preemption.parseCacheKey key ->
  preemption.toCacheKey R = key.
Proof.
  unfold preemption.parseCacheKey, preemption.toCacheKey. intros Hlen.
  rewrite Hlen. cbn [Nat.eqb negb].
  destruct (Split key "/") as [|a [|b [|x rest]]] eqn:E; try discriminate.
  cbn [nth]. intros [= -> ->]. symmetry. now apply Split_two_join.
Qed.

(** C7 -- [ResumePausedPod] visits the paused entries in the order of the
    range loop.  When it returns a candidate, the entries visited before
    were passed over, and the returned one was resumed: the trigger's
    deadline is not before the paused pod's, the pod marked
    [pause-pod = false] is the one write the store accepted, its entry is
    deleted from the paused map, and the candidate holds the node of the
    entry and the marked pod.  When it returns nil, every entry was passed
    over, nothing was written and the paused map is unchanged.  (A listed
    pod without annotation map, which a paused pod is not, ends the scan in
    a panic, nothing written.)  The entry that is deleted is the visited
    one whenever the key has one slash and the lister returns the pod it is
    asked for. *)
Theorem ResumePausedPod_scan (env : Env) (W : Pod) (s : State) :
  let keys := rangeOrder env (pausedPods s) in
  (exists (r : Res (option preemption.Candidate)) (s' : State),
      preemption.ResumePausedPod env W s = (r, s')
      /\ (tick s <= tick s')%nat
      /\ match r with
         | Val (Some c) =>
             exists before key after,
               keys = before ++ key :: after
               /\ Forall (passedOver env s (tick s') W) before
               /\ resumedEntry env s s' W key c
         | Val None =>
             Forall (passedOver env s (tick s') W) keys
             /\ pausedPods s' = pausedPods s /\ apiWrites s' = apiWrites s
         | Panic _ =>
             (exists key R,
                 In key keys /\ listedFor env key = inl R /\ Annotations R = None)
             /\ pausedPods s' = pausedPods s /\ apiWrites s' = apiWrites s
         end)
  /\ (forall key R,
        listedFor env key = inl R ->
        length (Split key "/") = 2%nat ->
        (Namespace R, Name R) = preemption.parseCacheKey key ->
        preemption.toCacheKey R = key).
Proof.
  cbv zeta. split.
  - unfold preemption.ResumePausedPod, bind, gets.
    destruct (resumeScan_outcome env W (rangeOrder env (pausedPods s)) s)
      as (r & s' & Hrun & Hle & Hout).
    exists r, s'. split; [exact Hrun|]. split; [exact Hle|exact Hout].
  - intros key R _. apply toCacheKey_listed.
Qed.

Lemma ResumePausedPod_scan_witness :
  let env := exampleEnv (fun _ _ => inl pausedResident) [] in
  preemption.toCacheKey pausedResident = "batch/resident"%string
  /\ exists (r : Res (option preemption.Candidate)) (s' : State),
       preemption.ResumePausedPod env triggerPod onePaused = (r, s')
       /\ (tick onePaused <= tick s')%nat.
Proof.
  intros env.
  destruct (ResumePausedPod_scan env triggerPod onePaused)
    as ((r & s' & Hrun & Hle & _) & Hkey).
  split.
  - apply (Hkey "batch/resident"%string pausedResident); reflexivity.
  - exists r, s'. split; [exact Hrun|exact Hle].
Defined.

Example ResumePausedPod_resumes :
  let env := exampleEnv (fun _ _ => inl pausedResident) [] in
  exists s' : State,
    preemption.ResumePausedPod env triggerPod onePaused
    = (Val (Some {| preemption.Candidate_NodeName := "node-1";
                    preemption.Candidate_Pod :=
                      withPauseFlag "false" pausedResident
                        (<[preemption.AnnotationKeyPausePod := "true"%string]>
                           {[deadline.AnnotationKeyDDL := "1m"%string]}) |}), s')
    /\ pausedPods s' = ∅ /\ length (apiWrites s') = 1%nat.
Proof. eexists. split; [vm_compute; reflexivity|]. split; reflexivity. Qed.

(** The same paused resident is passed over for a trigger with an earlier
    deadline. *)
Example ResumePausedPod_passes_over :
  let env := exampleEnv (fun _ _ => inl nonPreemptibleResident) [] in
  preemption.ResumePausedPod env arrivingPod onePaused = (Val None, onePaused).
Proof. vm_compute. reflexivity. Qed.

(** ** Post-filter: the candidate of a node and the choice among nodes *)

Lemma reported_now (env : Env) (c : gmap string Time) (s : State) (hi : nat) (p : Pod) :
  (tick s <= hi)%nat ->
  reported env c (tick s) hi p (deadlineAt env c (clock env (tick s)) p).
Proof. intros Hhi. exists (tick s). split; [lia|reflexivity]. Qed.

(** The first loop of [findCandidateOnNode]: it collects the eligible
    residents; a candidate it newly picks is one of them and has a deadline
    after [maxDDL]; it picks none when no eligible resident has one. *)
Lemma scanResidents_outcome (env : Env) (pod : Pod) (podInfos : list Pod) :
  forall (maxDDL : Time) (candidatePod : option Pod) (unpausedPods : list Pod) (s : State),
  exists (found : option Pod) (s' : State),
    rtpreemptive.scanResidents env pod podInfos maxDDL candidatePod unpausedPods s
    = (Val (found,
            unpausedPods
            ++ List.filter (eligible pod) (List.map (rtpreemptive.latestOf env) podInfos)),
       s')
    /\ onlyClock s s'
    /\ (forall c, found = Some c ->
          candidatePod = Some c
          \/ (In c (List.filter (eligible pod)
                      (List.map (rtpreemptive.latestOf env) podInfos))
              /\ exists d, reported env (podDeadlines s) (tick s) (tick s') c d
                           /\ maxDDL < d))
    /\ (candidatePod = None ->
        (forall p n,
            In p (List.filter (eligible pod)
                    (List.map (rtpreemptive.latestOf env) podInfos)) ->
            deadlineAt env (podDeadlines s) (clock env n) p <= maxDDL) ->
        found = None).
Proof.
  induction podInfos as [|podInfo rest IH]; intros maxDDL candidatePod unpausedPods s.
  - exists candidatePod, s. cbn. rewrite app_nil_r.
    split; [reflexivity|]. split; [apply onlyClock_refl|].
    split; [now left|]. now intros ->.
  - cbn [rtpreemptive.scanResidents List.map List.filter].
    set (p := rtpreemptive.latestOf env podInfo).
    destruct (String.eqb (UID p) (UID pod)) eqn:Huid.
    { assert (Helig : eligible pod p = false) by (unfold eligible; now rewrite Huid).
      rewrite Helig. apply IH. }
    destruct (PodPhase_eqb (Phase p) PodPaused) eqn:Hphase; cbn [negb].
    { assert (Helig : eligible pod p = false)
        by (unfold eligible; rewrite Hphase; apply andb_false_r).
      rewrite Helig. apply IH. }
    assert (Helig : eligible pod p = true) by (unfold eligible; now rewrite Huid, Hphase).
    rewrite Helig.
    unfold bind at 1. rewrite GetPodDeadline_run. cbn [deadline.cache].
    set (ddl := deadlineAt env (podDeadlines s) (clock env (tick s)) p).
    set (s1 := afterLookup (podDeadlines s) p s).
    assert (Hclock1 : onlyClock s s1) by apply onlyClock_afterLookup.
    pose proof (onlyClock_fields _ _ Hclock1) as (Hle1 & _ & _ & _ & Hd1).
    destruct (After ddl maxDDL) eqn:Hafter.
    + destruct (IH ddl (Some p) (unpausedPods ++ [p]) s1)
        as (found & s' & Hrun & Hclock & Hfound & _).
      pose proof (onlyClock_fields _ _ Hclock) as (Hle & _).
      exists found, s'. rewrite Hrun, <- app_assoc.
      split; [reflexivity|]. split; [eapply onlyClock_trans; eassumption|].
      apply Z.gtb_lt in Hafter.
      split.
      * intros c Hc. right. destruct (Hfound c Hc) as [[= <-]|(Hin & d & Hrep & Hlt)].
        -- split; [now left|]. exists ddl. split; [apply reported_now; lia|lia].
        -- split; [now right|]. exists d. rewrite Hd1 in Hrep. split; [|lia].
           eapply reported_weaken; [| |exact Hrep]; lia.
      * intros _ Hnone. specialize (Hnone p (tick s) (or_introl eq_refl)).
        fold ddl in Hnone. lia.
    + destruct (IH maxDDL candidatePod (unpausedPods ++ [p]) s1)
        as (found & s' & Hrun & Hclock & Hfound & Hnone).
      pose proof (onlyClock_fields _ _ Hclock) as (Hle & _).
      exists found, s'. rewrite Hrun, <- app_assoc.
      split; [reflexivity|]. split; [eapply onlyClock_trans; eassumption|].
      split.
      * intros c Hc. destruct (Hfound c Hc) as [Hold|(Hin & d & Hrep & Hlt)]; [now left|].
        right. split; [now right|]. exists d. rewrite Hd1 in Hrep. split; [|lia].
        eapply reported_weaken; [| |exact Hrep]; lia.
      * intros Hcand Hall. apply Hnone; [assumption|].
        intros q n Hq. rewrite Hd1. apply Hall. now right.
Qed.

Lemma PodPhase_eqb_eq (a b : PodPhase) : PodPhase_eqb a b = true <-> a = b.
Proof. destruct a, b; simpl; split; intros H; try reflexivity; discriminate. Qed.

Lemma eligible_spec (pod p : Pod) :
  eligible pod p = true <-> UID p <> UID pod /\ Phase p <> PodPaused.
Proof.
  unfold eligible. rewrite andb_true_iff, !negb_true_iff.
  rewrite String.eqb_neq. rewrite <- not_true_iff_false, PodPhase_eqb_eq.
  reflexivity.
Qed.

(** The loop of [selectCandidate]: the returned candidate is the initial
    one or one of the list, its deadline [d'] is the last value of [maxDDL],
    and no candidate of the list was reported with a later deadline. *)
Lemma selectLoop_outcome (env : Env) (cs : list preemption.Candidate) :
  forall (maxDDL : Time) (bestCandidate : preemption.Candidate) (s : State),
  exists (best : preemption.Candidate) (s' : State) (d' : Time),
    rtpreemptive.selectLoop env cs maxDDL bestCandidate s = (Val best, s')
    /\ onlyClock s s'
    /\ maxDDL <= d'
    /\ ((best = bestCandidate /\ d' = maxDDL)
        \/ (In best cs
            /\ reported env (podDeadlines s) (tick s) (tick s')
                 (preemption.Candidate_Pod best) d'))
    /\ (forall c, In c cs ->
          exists d, reported env (podDeadlines s) (tick s) (tick s')
                      (preemption.Candidate_Pod c) d
                    /\ d <= d').
Proof.
  induction cs as [|c rest IH]; intros maxDDL bestCandidate s.
  - exists bestCandidate, s, maxDDL. split; [reflexivity|].
    split; [apply onlyClock_refl|]. split; [lia|]. split; [now left|].
    intros c [].
  - cbn [rtpreemptive.selectLoop]. unfold bind at 1.
    rewrite GetPodDeadline_run. cbn [deadline.cache].
    set (ddl := deadlineAt env (podDeadlines s) (clock env (tick s))
                  (preemption.Candidate_Pod c)).
    set (s1 := afterLookup (podDeadlines s) (preemption.Candidate_Pod c) s).
    assert (Hclock1 : onlyClock s s1) by apply onlyClock_afterLookup.
    pose proof (onlyClock_fields _ _ Hclock1) as (Hle1 & _ & _ & _ & Hd1).
    destruct (After ddl maxDDL) eqn:Hafter.
    + destruct (IH ddl c s1) as (best & s' & d' & Hrun & Hclock & Hmax & Hbest & Hall).
      pose proof (onlyClock_fields _ _ Hclock) as (Hle & _).
      apply Z.gtb_lt in Hafter. rewrite Hd1 in Hbest, Hall.
      exists best, s', d'. split; [exact Hrun|].
      split; [eapply onlyClock_trans; eassumption|]. split; [lia|]. split.
      * right. destruct Hbest as [[-> ->]|[Hin Hrep]].
        -- split; [now left|]. apply reported_now. lia.
        -- split; [now right|]. eapply reported_weaken; [| |exact Hrep]; lia.
      * intros c' [<-|Hin].
        -- exists ddl. split; [apply reported_now; lia|lia].
        -- destruct (Hall c' Hin) as (d & Hrep & Hd). exists d. split; [|exact Hd].
           eapply reported_weaken; [| |exact Hrep]; lia.
    + destruct (IH maxDDL bestCandidate s1)
        as (best & s' & d' & Hrun & Hclock & Hmax & Hbest & Hall).
      pose proof (onlyClock_fields _ _ Hclock) as (Hle & _).
      assert (Hnot : ddl <= maxDDL).
      { unfold After in Hafter. destruct (Z.gtb_spec ddl maxDDL); [discriminate|lia]. }
      rewrite Hd1 in Hbest, Hall.
      exists best, s', d'. split; [exact Hrun|].
      split; [eapply onlyClock_trans; eassumption|]. split; [lia|]. split.
      * destruct Hbest as [Hsame|[Hin Hrep]]; [now left|right].
        split; [now right|]. eapply reported_weaken; [| |exact Hrep]; lia.
      * intros c' [<-|Hin].
        -- exists ddl. split; [apply reported_now; lia|lia].
        -- destruct (Hall c' Hin) as (d & Hrep & Hd). exists d. split; [|exact Hd].
           eapply reported_weaken; [| |exact Hrep]; lia.
Qed.

(** C2 -- the candidates of the post-filter.  A resident returned by
    [findCandidateOnNode] is a resident of the node (as the lister has it)
    that is not paused, has another UID than the pod, was reported with a
    deadline strictly after the pod's, and without which [fits] reports no
    insufficiency on the node; no candidate is returned when no eligible
    resident has a deadline after the pod's.  [selectCandidate] returns a
    candidate of the list such that no candidate of the list was reported
    with a later deadline.  The deadlines are those the deadline manager
    reports during the call; neither function changes anything but the
    number of clock readings. *)
Theorem postFilter_candidates (env : Env) (pod : Pod) (nodeInfo : NodeInfo)
    (candidates : list preemption.Candidate) (s : State) :
  (exists (found : option Pod) (s' : State),
      rtpreemptive.findCandidateOnNode env pod nodeInfo s = (Val found, s')
      /\ onlyClock s s'
      /\ (forall c, found = Some c ->
            In c (residentsOf env nodeInfo)
            /\ Phase c <> PodPaused
            /\ UID c <> UID pod
            /\ (exists dW dC,
                   reported env (podDeadlines s) (tick s) (tick s') pod dW
                   /\ reported env (podDeadlines s) (tick s) (tick s') c dC
                   /\ dW < dC)
            /\ Fits env pod (viewAfterPreemption env pod nodeInfo c) = [])
      /\ ((forall p n m,
              In p (unpausedResidents env pod nodeInfo) ->
              deadlineAt env (podDeadlines s) (clock env n) p
              <= deadlineAt env (podDeadlines s) (clock env m) pod) ->
          found = None))
  /\ (candidates <> [] ->
      exists (best : preemption.Candidate) (s' : State),
        rtpreemptive.selectCandidate env candidates s = (Val (Some best), s')
        /\ onlyClock s s'
        /\ In best candidates
        /\ exists dB,
             reported env (podDeadlines s) (tick s) (tick s')
               (preemption.Candidate_Pod best) dB
             /\ forall c, In c candidates ->
                  exists dC,
                    reported env (podDeadlines s) (tick s) (tick s')
                      (preemption.Candidate_Pod c) dC
                    /\ dC <= dB).
Proof.
  split.
  - unfold rtpreemptive.findCandidateOnNode. unfold bind at 1.
    rewrite GetPodDeadline_run. cbn [deadline.cache].
    set (podDDL := deadlineAt env (podDeadlines s) (clock env (tick s)) pod).
    set (s1 := afterLookup (podDeadlines s) pod s).
    assert (Hclock1 : onlyClock s s1) by apply onlyClock_afterLookup.
    pose proof (onlyClock_fields _ _ Hclock1) as (Hle1 & _ & _ & _ & Hd1).
    destruct (scanResidents_outcome env pod
                (Pods nodeInfo ++ NominatedPodsForNode env (Node_Name (Node nodeInfo)))
                podDDL None [] s1)
      as (found & s' & Hrun & Hclock & Hfound & Hnone).
    pose proof (onlyClock_fields _ _ Hclock) as (Hle & _).
    unfold bind at 1. rewrite Hrun. cbn [app].
    fold (residentsOf env nodeInfo) in *. fold (unpausedResidents env pod nodeInfo) in *.
    rewrite Hd1 in Hfound, Hnone.
    assert (Hclock' : onlyClock s s') by (eapply onlyClock_trans; eassumption).
    destruct found as [c|].
    + fold (viewAfterPreemption env pod nodeInfo c).
      destruct (Fits env pod (viewAfterPreemption env pod nodeInfo c)) as [|r rs] eqn:Hfits.
      * exists (Some c), s'. split; [reflexivity|]. split; [exact Hclock'|].
        split.
        -- intros c' [= <-].
           destruct (Hfound c eq_refl) as [Hold|(Hin & d & Hrep & Hlt)]; [discriminate|].
           unfold unpausedResidents in Hin. apply filter_In in Hin.
           destruct Hin as [Hin Helig]. apply eligible_spec in Helig.
           split; [exact Hin|]. split; [tauto|]. split; [tauto|].
           split; [|exact Hfits].
           exists podDDL, d. split; [apply reported_now; lia|].
           split; [eapply reported_weaken; [| |exact Hrep]; lia|exact Hlt].
        -- intros Hall. exfalso.
           destruct (Hfound c eq_refl) as [Hold|(Hin & d & (n & _ & ->) & Hlt)];
             [discriminate|].
           specialize (Hall c n (tick s) Hin). fold podDDL in Hall. lia.
      * exists None, s'. split; [reflexivity|]. split; [exact Hclock'|].
        split; [discriminate|reflexivity].
    + exists None, s'. split; [reflexivity|]. split; [exact Hclock'|].
      split; [discriminate|reflexivity].
  - destruct candidates as [|first rest]; [contradiction|]. intros _.
    unfold rtpreemptive.selectCandidate. unfold bind at 1.
    rewrite GetPodDeadline_run. cbn [deadline.cache].
    set (maxDDL := deadlineAt env (podDeadlines s) (clock env (tick s))
                     (preemption.Candidate_Pod first)).
    set (s1 := afterLookup (podDeadlines s) (preemption.Candidate_Pod first) s).
    assert (Hclock1 : onlyClock s s1) by apply onlyClock_afterLookup.
    pose proof (onlyClock_fields _ _ Hclock1) as (Hle1 & _ & _ & _ & Hd1).
    destruct (selectLoop_outcome env (first :: rest) maxDDL first s1)
      as (best & s' & d' & Hrun & Hclock & Hmax & Hbest & Hall).
    pose proof (onlyClock_fields _ _ Hclock) as (Hle & _).
    rewrite Hd1 in Hbest, Hall.
    unfold bind at 1. rewrite Hrun.
    exists best, s'. split; [reflexivity|].
    split; [eapply onlyClock_trans; eassumption|].
    assert (Hin : In best (first :: rest)).
    { destruct Hbest as [[-> _]|[Hin _]]; [now left|exact Hin]. }
    split; [exact Hin|].
    exists d'. split.
    + destruct Hbest as [[-> ->]|[_ Hrep]].
      * apply reported_now. lia.
      * eapply reported_weaken; [| |exact Hrep]; lia.
    + intros c Hc. destruct (Hall c Hc) as (d & Hrep & Hd).
      exists d. split; [|exact Hd].
      eapply reported_weaken; [| |exact Hrep]; lia.
Qed.

Lemma postFilter_candidates_witness :
  let env := exampleEnv noPods [node1] in
  let candidate := {| preemption.Candidate_NodeName := "node-1";
                      preemption.Candidate_Pod := nonPreemptibleResident |} in
  (Phase nonPreemptibleResident <> PodPaused
   /\ UID nonPreemptibleResident <> UID arrivingPod
   /\ Fits env arrivingPod
        (viewAfterPreemption env arrivingPod node1 nonPreemptibleResident) = [])
  /\ exists (best : preemption.Candidate) (s' : State),
       rtpreemptive.selectCandidate env [candidate] emptyState = (Val (Some best), s')
       /\ In best [candidate].
Proof.
  intros env candidate.
  destruct (postFilter_candidates env arrivingPod node1 [candidate] emptyState)
    as ((found & s1 & Hrun & _ & Hfound & _) & Hselect).
  split.
  - assert (Hsome : found = Some nonPreemptibleResident).
    { assert (Heval : rtpreemptive.findCandidateOnNode env arrivingPod node1 emptyState
                      = (Val (Some nonPreemptibleResident), emptyState)) by reflexivity.
      rewrite Heval in Hrun. now injection Hrun as <- _. }
    destruct (Hfound nonPreemptibleResident Hsome) as (_ & Hphase & Huid & _ & Hfits).
    split; [exact Hphase|]. split; [exact Huid|exact Hfits].
  - destruct Hselect as (best & s' & Hbest & _ & Hin & _); [discriminate|].
    exists best, s'. split; [exact Hbest|exact Hin].
Defined.

(* ===================================================================== *)
(** * Further properties of the managers and the hooks *)
(* ===================================================================== *)

(** ** The deadline cache *)


Lemma afterLookup_cached (c : gmap string Time) (pod : Pod) (s : State) (ddl : Time) :
  c !! UID pod = Some ddl -> afterLookup c pod s = s.
Proof. unfold afterLookup. now intros ->. Qed.



(** X2 -- a lookup does not store.  For a pod that is cached or carries a
    creation timestamp it reads no clock and changes nothing, so repeated
    lookups agree.  For an uncached pod without creation timestamp every
    lookup takes the next clock reading, and the pod is still uncached
    afterwards. *)
Theorem GetPodDeadline_repeated (env : Env) (m : deadline.deadlineManager)
    (pod : Pod) (s : State) :
  (is_Some (deadline.cache m s !! UID pod) \/ IsZero (CreationTimestamp pod) = false ->
   exists ddl : Time, deadline.GetPodDeadline env m pod s = (Val ddl, s))
  /\ (deadline.cache m s !! UID pod = None -> IsZero (CreationTimestamp pod) = true ->
      deadline.GetPodDeadline env m pod s
      = (Val (clock env (tick s) + thirtyDays), withTick (S (tick s)) s)
      /\ deadline.GetPodDeadline env m pod (withTick (S (tick s)) s)
         = (Val (clock env (S (tick s)) + thirtyDays), withTick (S (S (tick s))) s)).
Proof.
  split.
  - intros Hfixed. rewrite GetPodDeadline_run. eexists. f_equal.
    unfold afterLookup. destruct (deadline.cache m s !! UID pod) as [d|] eqn:Hc;
      [reflexivity|].
    destruct Hfixed as [[d Hd]|Hcreated]; [discriminate|]. now rewrite Hcreated.
  - intros Hmiss Hzero.
    assert (Hmiss' : deadline.cache m (withTick (S (tick s)) s) !! UID pod = None)
      by (destruct m; exact Hmiss).
    rewrite !GetPodDeadline_run. unfold deadlineAt, afterLookup, parsedDeadline.
    rewrite Hmiss', Hmiss, Hzero. split; reflexivity.
Qed.

Lemma GetPodDeadline_repeated_witness :
  let env := exampleEnv noPods [] in
  let fresh := examplePod "batch" "job-0" "u0" 0 None None in
  let created := examplePod "batch" "job-1" "u1" 1000 None None in
  (exists ddl : Time,
      deadline.GetPodDeadline env deadline.OfPlugin created emptyState
      = (Val ddl, emptyState))
  /\ deadline.GetPodDeadline env deadline.OfPlugin fresh emptyState
     = (Val (1000000 + thirtyDays), withTick 1 emptyState)
  /\ deadline.GetPodDeadline env deadline.OfPlugin fresh (withTick 1 emptyState)
     = (Val (1000001 + thirtyDays), withTick 2 emptyState).
Proof.
  intros env fresh created. split.
  - apply (proj1 (GetPodDeadline_repeated env deadline.OfPlugin created emptyState)).
    right. reflexivity.
  - apply (proj2 (GetPodDeadline_repeated env deadline.OfPlugin fresh emptyState));
      reflexivity.
Defined.

(** X3 -- [RemovePodDeadline] forgets the UID and nothing else: whatever was
    cached, afterwards the UID is not cached, every other UID has the
    deadline it had, and the next lookup parses the pod again. *)
Theorem RemovePodDeadline_forgets (env : Env) (m : deadline.deadlineManager)
    (pod : Pod) (s : State) :
  exists s' : State,
    deadline.RemovePodDeadline m pod s = (Val tt, s')
    /\ deadline.cache m s' = delete (UID pod) (deadline.cache m s)
    /\ deadline.cache m s' !! UID pod = None
    /\ (forall uid, uid <> UID pod ->
          deadline.cache m s' !! uid = deadline.cache m s !! uid)
    /\ deadline.GetPodDeadline env m pod s' = deadline.ParsePodDeadline env pod s'.
Proof.
  unfold deadline.RemovePodDeadline, modify. eexists. split; [reflexivity|].
  rewrite cache_withCache. split; [reflexivity|].
  split; [apply lookup_delete_eq|].
  split; [intros uid Hne; now apply lookup_delete_ne|].
  unfold deadline.GetPodDeadline, bind, gets.
  now rewrite cache_withCache, lookup_delete_eq.
Qed.

(** X4 -- a parsed deadline is never before the creation time: for a pod
    with a creation timestamp both parsers return the creation time plus a
    non-negative duration, without reading the clock. *)
Theorem deadline_not_before_creation (env : Env) (pod : Pod) (s : State) (now : Time) :
  CreationTimestamp pod <> 0 ->
  (exists ddl : Time,
      deadline.ParsePodDeadline env pod s = (Val ddl, s)
      /\ CreationTimestamp pod <= ddl)
  /\ CreationTimestamp pod
     <= simpleddl.parseDDL (ParseDuration env) now (CreationTimestamp pod) pod.
Proof.
  intros Hcreated. apply Z.eqb_neq in Hcreated.
  rewrite ParsePodDeadline_run.
  unfold parsedDeadline, simpleddl.parseDDL, IsZero, Add. rewrite Hcreated.
  rewrite tenMinutes_default. split.
  - eexists. split; [reflexivity|].
    destruct (index (Annotations pod) deadline.AnnotationKeyDDL) as [str|];
      [|unfold thirtyDays; lia].
    destruct (ParseDuration env str) as [d|]; [|unfold thirtyDays; lia].
    destruct (Z.ltb_spec d 0); [unfold thirtyDays|]; lia.
  - destruct (index (Annotations pod) simpleddl.AnnotationKeyDDL) as [str|];
      [|unfold tenMinutes; lia].
    destruct (ParseDuration env str) as [d|]; [|unfold tenMinutes; lia].
    destruct (Z.ltb_spec d 0); [unfold tenMinutes|]; lia.
Qed.

Lemma deadline_not_before_creation_witness :
  let env := exampleEnv noPods [] in
  let negative := examplePod "batch" "job-3" "u3" 1000 None
                    (Some {[deadline.AnnotationKeyDDL := "-5s"%string]}) in
  (exists ddl : Time,
      deadline.ParsePodDeadline env negative emptyState = (Val ddl, emptyState)
      /\ 1000 <= ddl)
  /\ 1000 <= simpleddl.parseDDL exampleParseDuration 77 1000 negative.
Proof.
  intros env negative.
  apply (deadline_not_before_creation env negative emptyState 77). discriminate.
Defined.

(** ** The pause flag and the paused map *)

(** X5 -- the pause flag.  On a pod with an annotation map,
    [markPodToPaused] makes [IsPodMarkedPaused] true and [markPodToResume]
    makes it false again; the marks change no other annotation and no other
    field, and touch no state.  On a pod without annotation map the flag
    reads as not paused and both marks panic. *)
Theorem mark_pause_then_resume (pod : Pod) (s : State) :
  match Annotations pod with
  | None =>
      preemption.IsPodMarkedPaused pod = false
      /\ preemption.markPodToPaused pod s = (Panic nilMapAssignment, s)
      /\ preemption.markPodToResume pod s = (Panic nilMapAssignment, s)
  | Some entries =>
      exists paused resumed : Pod,
        preemption.markPodToPaused pod s = (Val paused, s)
        /\ preemption.IsPodMarkedPaused paused = true
        /\ preemption.markPodToResume paused s = (Val resumed, s)
        /\ preemption.IsPodMarkedPaused resumed = false
        /\ (forall key, key <> preemption.AnnotationKeyPausePod ->
              index (Annotations resumed) key = index (Annotations pod) key)
        /\ (Namespace resumed, Name resumed, UID resumed) = (Namespace pod, Name pod, UID pod)
        /\ (CreationTimestamp resumed, Priority resumed, NodeName resumed, Phase resumed)
           = (CreationTimestamp pod, Priority pod, NodeName pod, Phase pod)
  end.
Proof.
  unfold preemption.markPodToPaused, preemption.markPodToResume,
    preemption.IsPodMarkedPaused.
  destruct (Annotations pod) as [entries|] eqn:Hann.
  - eexists _, _. split; [reflexivity|]. cbn [SetAnnotations Annotations index].
    rewrite lookup_insert_eq. split; [reflexivity|]. split; [reflexivity|].
    cbn [SetAnnotations Annotations index]. rewrite lookup_insert_eq.
    split; [reflexivity|]. split; [|split; reflexivity].
    intros key Hkey. rewrite !lookup_insert_ne by congruence. reflexivity.
  - cbn [index]. repeat split.
Qed.

Lemma AddPausedPod_run (env : Env) (candidate : preemption.Candidate) (s : State) :
  exists s' : State,
    preemption.AddPausedPod env candidate s = (Val tt, s')
    /\ pausedPods s'
       = <[preemption.toCacheKey (preemption.Candidate_Pod candidate)
           := preemption.Candidate_NodeName candidate]> (pausedPods s)
    /\ ownPodDeadlines s'
       = <[UID (preemption.Candidate_Pod candidate)
           := deadlineAt env (ownPodDeadlines s) (clock env (tick s))
                (preemption.Candidate_Pod candidate)]> (ownPodDeadlines s)
    /\ apiWrites s' = apiWrites s
    /\ podDeadlines s' = podDeadlines s.
Proof.
  unfold preemption.AddPausedPod, bind, modify.
  rewrite AddPodDeadline_run. cbv zeta. unfold ret.
  eexists. split; [reflexivity|].
  cbn [deadline.cache deadline.withCache]. unfold afterLookup.
  repeat match goal with
         | |- context [match ?x with _ => _ end] => destruct x
         end; repeat split.
Qed.

(** X6 -- the paused map round trip: after [AddPausedPod] for a candidate,
    [GetPausedPodNode] of its pod asks the node lister for the candidate's
    node name (and wraps its error), and the pod's deadline is cached; after
    [RemovePausedPod] the lookup fails with [ErrPodNotFound] and the
    deadline is forgotten. *)
Theorem paused_map_round_trip (env : Env) (candidate : preemption.Candidate) (s : State) :
  let pod := preemption.Candidate_Pod candidate in
  let nodeName := preemption.Candidate_NodeName candidate in
  exists s1 s2 : State,
    preemption.AddPausedPod env candidate s = (Val tt, s1)
    /\ preemption.GetPausedPodNode env pod s1
       = (Val match nodeLister env nodeName with
              | inl node => inl node
              | inr e => inr (Errorf ("failed to get node " ++ nodeName ++ ": ") e)
              end, s1)
    /\ is_Some (ownPodDeadlines s1 !! UID pod)
    /\ preemption.RemovePausedPod pod s1 = (Val tt, s2)
    /\ preemption.GetPausedPodNode env pod s2 = (Val (inr ErrPodNotFound), s2)
    /\ ownPodDeadlines s2 !! UID pod = None.
Proof.
  cbv zeta.
  destruct (AddPausedPod_run env candidate s) as (s1 & Hadd & Hp1 & Ho1 & _).
  exists s1. eexists. split; [exact Hadd|].
  rewrite GetPausedPodNode_run, Hp1, lookup_insert_eq.
  split; [destruct (nodeLister env _); reflexivity|].
  split; [rewrite Ho1, lookup_insert_eq; eauto|].
  unfold preemption.RemovePausedPod, deadline.RemovePodDeadline, bind, modify.
  split; [reflexivity|].
  rewrite GetPausedPodNode_run. cbn. rewrite !lookup_delete_eq. split; reflexivity.
Qed.

Lemma Split_pieces (sep : ascii) (str : string) :
  Forall (fun piece => Count piece sep = 0%nat) (Split str sep).
Proof.
  induction str as [|c str IH]; simpl; [repeat constructor|].
  destruct (Ascii.eqb c sep) eqn:Hc; [constructor; [reflexivity|exact IH]|].
  destruct (Split str sep) as [|h t]; [repeat constructor; simpl; now rewrite Hc|].
  inversion IH as [|? ? Hh Ht]; subst. constructor; [|exact Ht].
  simpl. now rewrite Hc, Hh.
Qed.

(** X7 -- decoding a key: a key with exactly one slash parses to the
    namespace and name it is the key of, neither of which holds a slash;
    any other key (no slash, or more than one) parses to the empty
    namespace and name. *)
Theorem parseCacheKey_inverse (key : string) :
  (Nat.eqb (Count key "/") 1 = true ->
   exists namespace name : string,
     preemption.parseCacheKey key = (namespace, name)
     /\ key = (namespace ++ "/" ++ name)%string
     /\ Contains namespace "/" = false /\ Contains name "/" = false)
  /\ (Nat.eqb (Count key "/") 1 = false ->
      preemption.parseCacheKey key = (EmptyString, EmptyString)).
Proof.
  unfold preemption.parseCacheKey. rewrite length_Split. split.
  - intros Hone. apply Nat.eqb_eq in Hone. rewrite Hone. cbn [Nat.eqb negb].
    pose proof (length_Split "/" key) as Hlen. rewrite Hone in Hlen.
    pose proof (Split_pieces "/" key) as Hpieces.
    destruct (Split key "/") as [|a [|b [|x rest]]] eqn:E; try discriminate.
    exists a, b. cbn [nth]. split; [reflexivity|].
    split; [now apply Split_two_join|].
    inversion Hpieces as [|? ? Ha Hrest]; subst.
    inversion Hrest as [|? ? Hb _]; subst.
    unfold Contains. now rewrite Ha, Hb.
  - intros Hother. cbn [Nat.eqb]. now rewrite Hother.
Qed.

Lemma parseCacheKey_inverse_witness :
  (exists namespace name : string,
      preemption.parseCacheKey "batch/job-1" = (namespace, name)
      /\ "batch/job-1"%string = (namespace ++ "/" ++ name)%string
      /\ Contains namespace "/" = false /\ Contains name "/" = false)
  /\ preemption.parseCacheKey "job-1" = (EmptyString, EmptyString).
Proof.
  split.
  - apply (proj1 (parseCacheKey_inverse "batch/job-1")). reflexivity.
  - apply (proj2 (parseCacheKey_inverse "job-1")). reflexivity.
Defined.

Lemma PauseCandidate_run (env : Env) (candidate : preemption.Candidate) (s : State)
    (latestPod : Pod) (entries : gmap string string) :
  podLister env (Namespace (preemption.Candidate_Pod candidate))
    (Name (preemption.Candidate_Pod candidate)) = inl latestPod ->
  Annotations latestPod = Some entries ->
  Update env (withPauseFlag "true" latestPod entries) = None ->
  preemption.PauseCandidate env candidate s
  = (Val None,
     snd (preemption.AddPausedPod env candidate
            (withApiWrites (withPauseFlag "true" latestPod entries :: apiWrites s) s))).
Proof.
  intros Hlister Hann Hupdate. unfold preemption.PauseCandidate.
  rewrite Hlister. unfold bind at 1. unfold preemption.markPodToPaused.
  rewrite Hann. unfold ret at 1. unfold bind at 1. rewrite updatePod_run.
  fold (withPauseFlag "true" latestPod entries). rewrite Hupdate.
  unfold bind.
  destruct (AddPausedPod_run env candidate
              (withApiWrites (withPauseFlag "true" latestPod entries :: apiWrites s) s))
    as (s' & Hadd & _).
  now rewrite Hadd.
Qed.

(** X8 -- pausing composes with the lookup, and there is one entry per
    workload: after a successful [PauseCandidate], [GetPausedPodNode] of the
    candidate's pod asks the node lister for the candidate's node name; and
    pausing the same candidate again writes to the store again but leaves
    the paused map as it is. *)
Theorem PauseCandidate_then_lookup (env : Env) (candidate : preemption.Candidate)
    (s : State) (latestPod : Pod) (entries : gmap string string) :
  let pod := preemption.Candidate_Pod candidate in
  let nodeName := preemption.Candidate_NodeName candidate in
  podLister env (Namespace pod) (Name pod) = inl latestPod ->
  Annotations latestPod = Some entries ->
  Update env (withPauseFlag "true" latestPod entries) = None ->
  exists s1 s2 : State,
    preemption.PauseCandidate env candidate s = (Val None, s1)
    /\ preemption.GetPausedPodNode env pod s1
       = (Val match nodeLister env nodeName with
              | inl node => inl node
              | inr e => inr (Errorf ("failed to get node " ++ nodeName ++ ": ") e)
              end, s1)
    /\ preemption.PauseCandidate env candidate s1 = (Val None, s2)
    /\ pausedPods s2 = pausedPods s1
    /\ length (apiWrites s2) = S (S (length (apiWrites s))).
Proof.
  cbv zeta. intros Hlister Hann Hupdate.
  rewrite (PauseCandidate_run env candidate s latestPod entries Hlister Hann Hupdate).
  destruct (AddPausedPod_run env candidate
              (withApiWrites (withPauseFlag "true" latestPod entries :: apiWrites s) s))
    as (s1 & Hadd & Hp1 & _ & Ha1 & _).
  rewrite Hadd. cbn [snd]. exists s1.
  rewrite (PauseCandidate_run env candidate s1 latestPod entries Hlister Hann Hupdate).
  destruct (AddPausedPod_run env candidate
              (withApiWrites (withPauseFlag "true" latestPod entries :: apiWrites s1) s1))
    as (s2 & Hadd2 & Hp2 & _ & Ha2 & _).
  rewrite Hadd2. cbn [snd]. exists s2. split; [reflexivity|].
  rewrite GetPausedPodNode_run, Hp1, lookup_insert_eq.
  split; [destruct (nodeLister env _); reflexivity|]. split; [reflexivity|].
  split.
  - rewrite Hp2. cbn. rewrite Hp1. apply insert_insert_eq.
  - rewrite Ha2. cbn. rewrite Ha1. reflexivity.
Qed.

Lemma PauseCandidate_then_lookup_witness :
  let env := exampleEnv (fun _ _ => inl nonPreemptibleResident) [node1] in
  let candidate := {| preemption.Candidate_NodeName := "node-1";
                      preemption.Candidate_Pod := nonPreemptibleResident |} in
  exists s1 s2 : State,
    preemption.PauseCandidate env candidate emptyState = (Val None, s1)
    /\ preemption.GetPausedPodNode env nonPreemptibleResident s1
       = (Val (inl {| Node_Name := "node-1" |}), s1)
    /\ preemption.PauseCandidate env candidate s1 = (Val None, s2)
    /\ pausedPods s2 = pausedPods s1
    /\ length (apiWrites s2) = 2%nat.
Proof.
  intros env candidate.
  apply (PauseCandidate_then_lookup env candidate emptyState nonPreemptibleResident
           (<[annotations.AnnotationKeyPreemptible := "false"%string]>
              {[deadline.AnnotationKeyDDL := "1h"%string]}));
    reflexivity.
Defined.

(** ** The queue order as a sorting order *)

Lemma Ascii_compare_lt_trans (a b c : ascii) :
  Ascii.compare a b = Lt -> Ascii.compare b c = Lt -> Ascii.compare a c = Lt.
Proof.
  unfold Ascii.compare. rewrite !N.compare_lt_iff. lia.
Qed.

Lemma String_compare_lt_trans (a : string) :
  forall b c : string,
    String.compare a b = Lt -> String.compare b c = Lt -> String.compare a c = Lt.
Proof.
  induction a as [|x a IH]; intros [|y b] [|z c]; simpl; try discriminate; try reflexivity.
  destruct (Ascii.compare x y) eqn:Hxy; try discriminate;
    destruct (Ascii.compare y z) eqn:Hyz; try discriminate.
  - apply Ascii.compare_eq_iff in Hxy, Hyz. subst.
    unfold Ascii.compare. rewrite N.compare_refl. apply IH.
  - apply Ascii.compare_eq_iff in Hxy. subst. now rewrite Hyz.
  - apply Ascii.compare_eq_iff in Hyz. subst. now rewrite Hxy.
  - now rewrite (Ascii_compare_lt_trans _ _ _ Hxy Hyz).
Qed.

Lemma String_ltb_trans (a b c : string) :
  String.ltb a b = true -> String.ltb b c = true -> String.ltb a c = true.
Proof.
  unfold String.ltb.
  destruct (String.compare a b) eqn:Hab; try discriminate.
  destruct (String.compare b c) eqn:Hbc; try discriminate.
  now rewrite (String_compare_lt_trans _ _ _ Hab Hbc).
Qed.

Lemma sortKeyLess_trans (prio1 prio2 prio3 : Z) (ddl1 ddl2 ddl3 : Time)
    (key1 key2 key3 : string) :
  sortKeyLess prio1 prio2 ddl1 ddl2 key1 key2 = true ->
  sortKeyLess prio2 prio3 ddl2 ddl3 key2 key3 = true ->
  sortKeyLess prio1 prio3 ddl1 ddl3 key1 key3 = true.
Proof.
  unfold sortKeyLess.
  destruct (Z.eqb_spec prio1 prio2) as [H12|H12];
    destruct (Z.eqb_spec prio2 prio3) as [H23|H23];
    destruct (Z.eqb_spec prio1 prio3) as [H13|H13]; cbn [negb];
    try lia; rewrite ?Z.gtb_ltb, ?Z.ltb_lt; try lia.
  destruct (Z.eqb_spec ddl1 ddl2) as [D12|D12];
    destruct (Z.eqb_spec ddl2 ddl3) as [D23|D23];
    destruct (Z.eqb_spec ddl1 ddl3) as [D13|D13];
    rewrite ?Z.ltb_lt; try lia.
  apply String_ltb_trans.
Qed.

Lemma sortKeyLess_irrefl (prio : Z) (ddl : Time) (key : string) :
  sortKeyLess prio prio ddl ddl key key = false.
Proof.
  unfold sortKeyLess, String.ltb.
  now rewrite !Z.eqb_refl, String_compare_refl.
Qed.

(** X9 -- the SimpleDDL [Less] is a strict order a sort can rely on: for
    pods that carry a creation timestamp it is irreflexive and transitive,
    whatever the clock reads at each comparison. *)
Theorem simpleddl_Less_strict_order (parse : string -> option Duration)
    (now1 now2 now3 now4 now5 now6 : Time) (p1 p2 p3 : Pod) :
  IsZero (CreationTimestamp p1) = false ->
  IsZero (CreationTimestamp p2) = false ->
  IsZero (CreationTimestamp p3) = false ->
  simpleddl.Less parse now1 now2 p1 p1 = false
  /\ (simpleddl.Less parse now1 now2 p1 p2 = true ->
      simpleddl.Less parse now3 now4 p2 p3 = true ->
      simpleddl.Less parse now5 now6 p1 p3 = true).
Proof.
  intros Hc1 Hc2 Hc3. rewrite !simpleddl_Less_sortKey. split.
  - rewrite (parseDDL_created parse now2 now1 p1 Hc1). apply sortKeyLess_irrefl.
  - rewrite (parseDDL_created parse now3 now2 p2 Hc2).
    rewrite (parseDDL_created parse now5 now1 p1 Hc1).
    rewrite (parseDDL_created parse now6 now4 p3 Hc3).
    apply sortKeyLess_trans.
Qed.

Lemma simpleddl_Less_strict_order_witness :
  let first := examplePod "batch" "job-1" "u1" 1000 (Some 10)
                 (Some {[simpleddl.AnnotationKeyDDL := "10s"%string]}) in
  let second := examplePod "batch" "job-2" "u2" 1000 (Some 10)
                  (Some {[simpleddl.AnnotationKeyDDL := "20s"%string]}) in
  let third := examplePod "batch" "job-3" "u3" 1000 (Some 5)
                 (Some {[simpleddl.AnnotationKeyDDL := "10s"%string]}) in
  simpleddl.Less exampleParseDuration 1 2 first first = false
  /\ simpleddl.Less exampleParseDuration 5 6 first third = true.
Proof.
  intros first second third.
  destruct (simpleddl_Less_strict_order exampleParseDuration 1 2 3 4 5 6
              first second third eq_refl eq_refl eq_refl) as [Hirrefl Htrans].
  split; [exact Hirrefl|]. apply Htrans; reflexivity.
Defined.

(** X10 -- priority comes first: a pod of higher priority is ordered before
    a pod of lower priority by both plug-ins, whatever their deadlines,
    names and the clock; the EDF plug-in then does not consult the deadline
    manager, which stays as it is. *)
Theorem Less_priority_first (env : Env) (now1 now2 : Time) (p1 p2 : Pod) (s : State) :
  PodPriority p2 < PodPriority p1 ->
  simpleddl.Less (ParseDuration env) now1 now2 p1 p2 = true
  /\ simpleddl.Less (ParseDuration env) now1 now2 p2 p1 = false
  /\ rtpreemptive.Less env p1 p2 s = (Val true, s)
  /\ rtpreemptive.Less env p2 p1 s = (Val false, s).
Proof.
  intros Hprio.
  assert (H12 : (PodPriority p1 =? PodPriority p2) = false) by (apply Z.eqb_neq; lia).
  assert (H21 : (PodPriority p2 =? PodPriority p1) = false) by (apply Z.eqb_neq; lia).
  assert (Hgt : (PodPriority p1 >? PodPriority p2) = true)
    by (rewrite Z.gtb_ltb; apply Z.ltb_lt; lia).
  assert (Hngt : (PodPriority p2 >? PodPriority p1) = false)
    by (rewrite Z.gtb_ltb; apply Z.ltb_ge; lia).
  unfold simpleddl.Less, rtpreemptive.Less.
  rewrite H12, H21, Hgt, Hngt. repeat split.
Qed.

Lemma Less_priority_first_witness :
  let env := exampleEnv noPods [] in
  let urgent := examplePod "batch" "zz" "u1" 1000 (Some 100)
                  (Some {[deadline.AnnotationKeyDDL := "1h"%string]}) in
  let relaxed := examplePod "batch" "aa" "u2" 1000 (Some 10)
                   (Some {[deadline.AnnotationKeyDDL := "1m"%string]}) in
  simpleddl.Less exampleParseDuration 1 2 urgent relaxed = true
  /\ simpleddl.Less exampleParseDuration 1 2 relaxed urgent = false
  /\ rtpreemptive.Less env urgent relaxed emptyState = (Val true, emptyState)
  /\ rtpreemptive.Less env relaxed urgent emptyState = (Val false, emptyState).
Proof.
  intros env urgent relaxed.
  apply (Less_priority_first env 1 2 urgent relaxed emptyState). reflexivity.
Defined.

(** X11 -- earliest deadline first: among two pods of equal priority the
    one with the earlier deadline is ordered first.  For SimpleDDL the
    deadlines are the parsed ones of pods with a creation timestamp; for the
    EDF plug-in they are the ones the deadline manager reports for two pods
    of different UIDs. *)
Theorem Less_earlier_deadline_first (env : Env) (now1 now2 : Time) (p1 p2 : Pod)
    (s : State) :
  PodPriority p1 = PodPriority p2 ->
  (IsZero (CreationTimestamp p1) = false ->
   IsZero (CreationTimestamp p2) = false ->
   simpleddl.parseDDL (ParseDuration env) now1 (CreationTimestamp p1) p1
   < simpleddl.parseDDL (ParseDuration env) now2 (CreationTimestamp p2) p2 ->
   simpleddl.Less (ParseDuration env) now1 now2 p1 p2 = true
   /\ simpleddl.Less (ParseDuration env) now2 now1 p2 p1 = false)
  /\ (UID p1 <> UID p2 ->
      (forall n m,
          deadlineAt env (podDeadlines s) (clock env n) p1
          < deadlineAt env (podDeadlines s) (clock env m) p2) ->
      exists s' : State, rtpreemptive.Less env p1 p2 s = (Val true, s')).
Proof.
  intros Hprio. split.
  - intros _ _ Hlt. rewrite !simpleddl_Less_sortKey. unfold sortKeyLess.
    rewrite Hprio, Z.eqb_refl. cbn [negb].
    assert (H12 : (simpleddl.parseDDL (ParseDuration env) now1 (CreationTimestamp p1) p1
                   =? simpleddl.parseDDL (ParseDuration env) now2 (CreationTimestamp p2) p2)
                  = false) by (apply Z.eqb_neq; lia).
    rewrite H12, Z.eqb_sym, H12.
    split; [apply Z.ltb_lt|apply Z.ltb_ge]; lia.
  - intros Huid Hlt. rewrite (Less_run env p1 p2 s Hprio). cbv zeta.
    eexists. f_equal. f_equal. unfold sortKeyLess.
    rewrite Hprio, Z.eqb_refl. cbn [negb].
    set (ddl1 := deadlineAt env (podDeadlines s) (clock env (tick s)) p1).
    set (s1 := withPodDeadlines _ _).
    assert (Hd2 : deadlineAt env (podDeadlines s1) (clock env (tick s1)) p2
                  = deadlineAt env (podDeadlines s) (clock env (tick s1)) p2).
    { unfold deadlineAt. subst s1. cbn [podDeadlines withPodDeadlines].
      now rewrite lookup_insert_ne by congruence. }
    rewrite Hd2. specialize (Hlt (tick s) (tick s1)). fold ddl1 in Hlt.
    assert (Hne : (ddl1 =? deadlineAt env (podDeadlines s) (clock env (tick s1)) p2)
                  = false) by (apply Z.eqb_neq; lia).
    rewrite Hne. apply Z.ltb_lt. lia.
Qed.

Lemma Less_earlier_deadline_first_witness :
  let env := exampleEnv noPods [] in
  let early := examplePod "batch" "zz" "u1" 1000 None
                 (Some (<[deadline.AnnotationKeyDDL := "1m"%string]>
                          {[simpleddl.AnnotationKeyDDL := "10s"%string]})) in
  let late := examplePod "batch" "aa" "u2" 1000 None
                (Some (<[deadline.AnnotationKeyDDL := "1h"%string]>
                         {[simpleddl.AnnotationKeyDDL := "20s"%string]})) in
  (simpleddl.Less exampleParseDuration 1 2 early late = true
   /\ simpleddl.Less exampleParseDuration 2 1 late early = false)
  /\ exists s' : State, rtpreemptive.Less env early late emptyState = (Val true, s').
Proof.
  intros env early late.
  destruct (Less_earlier_deadline_first env 1 2 early late emptyState eq_refl)
    as [Hsimple Hedf].
  split.
  - apply Hsimple; reflexivity.
  - apply Hedf; [discriminate|]. intros n m. reflexivity.
Defined.

(** X12 -- [Less] of the EDF plug-in only adds to the deadline cache: every
    deadline that was cached is cached unchanged afterwards; when the
    priorities are equal both pods are cached afterwards, when they differ
    the state is unchanged; the paused map and the store are never
    touched. *)
Theorem Less_keeps_cached_deadlines (env : Env) (p1 p2 : Pod) (s : State) :
  exists (b : bool) (s' : State),
    rtpreemptive.Less env p1 p2 s = (Val b, s')
    /\ (forall uid ddl, podDeadlines s !! uid = Some ddl ->
          podDeadlines s' !! uid = Some ddl)
    /\ (PodPriority p1 = PodPriority p2 ->
        is_Some (podDeadlines s' !! UID p1) /\ is_Some (podDeadlines s' !! UID p2))
    /\ (PodPriority p1 <> PodPriority p2 -> s' = s)
    /\ pausedPods s' = pausedPods s /\ apiWrites s' = apiWrites s
    /\ ownPodDeadlines s' = ownPodDeadlines s.
Proof.
  destruct (Z.eq_dec (PodPriority p1) (PodPriority p2)) as [Hprio|Hprio].
  - rewrite (Less_run env p1 p2 s Hprio). cbv zeta.
    set (ddl1 := deadlineAt env (podDeadlines s) (clock env (tick s)) p1).
    set (s1 := withPodDeadlines (<[UID p1 := ddl1]> (podDeadlines s))
                 (afterLookup (podDeadlines s) p1 s)).
    set (ddl2 := deadlineAt env (podDeadlines s1) (clock env (tick s1)) p2).
    eexists _, _. split; [reflexivity|].
    cbn [podDeadlines withPodDeadlines].
    assert (Hkeep1 : forall uid ddl, podDeadlines s !! uid = Some ddl ->
                     podDeadlines s1 !! uid = Some ddl).
    { intros uid ddl Hc. subst s1. cbn [podDeadlines withPodDeadlines].
      destruct (decide (UID p1 = uid)) as [<-|Hne];
        [|now rewrite lookup_insert_ne].
      rewrite lookup_insert_eq. f_equal. subst ddl1. now apply deadlineAt_cached. }
    assert (Hkeep2 : forall uid ddl, podDeadlines s1 !! uid = Some ddl ->
                     <[UID p2 := ddl2]> (podDeadlines s1) !! uid = Some ddl).
    { intros uid ddl Hc.
      destruct (decide (UID p2 = uid)) as [<-|Hne];
        [|now rewrite lookup_insert_ne].
      rewrite lookup_insert_eq. f_equal. subst ddl2. now apply deadlineAt_cached. }
    split; [intros uid ddl Hc; apply Hkeep2, Hkeep1, Hc|].
    split.
    { intros _. split; [|rewrite lookup_insert_eq; eauto].
      exists ddl1. apply Hkeep2. subst s1. cbn [podDeadlines withPodDeadlines].
      apply lookup_insert_eq. }
    split; [contradiction|].
    pose proof (onlyClock_fields _ _ (onlyClock_afterLookup (podDeadlines s) p1 s))
      as (_ & Hp & Ha & Ho & _).
    pose proof (onlyClock_fields _ _ (onlyClock_afterLookup (podDeadlines s1) p2 s1))
      as (_ & Hp' & Ha' & Ho' & _).
    split; [etransitivity; [exact Hp'|exact Hp]|].
    split; [etransitivity; [exact Ha'|exact Ha]|].
    etransitivity; [exact Ho'|exact Ho].
  - rewrite (Less_priorities_differ env p1 p2 s Hprio).
    eexists _, s. split; [reflexivity|]. split; [trivial|].
    split; [contradiction|]. repeat split.
Qed.

(** ** Pre-filter: the decision table *)

(** X13 -- a pod that is not marked paused passes the pre-filter: the hook
    returns the nil status and upserts the deadline of the latest pod (the
    given pod when the lister has none), without consulting the preemption
    manager or touching the paused map and the store. *)
Theorem PreFilter_unmarked_pod (env : Env) (preemptionManager : rtpreemptive.Manager)
    (pod0 : Pod) (s : State) :
  let pod := rtpreemptive.latestOf env pod0 in
  preemption.IsPodMarkedPaused pod = false ->
  exists s' : State,
    rtpreemptive.PreFilter env preemptionManager pod0 s = (Val None, s')
    /\ podDeadlines s'
       = <[UID pod := deadlineAt env (podDeadlines s) (clock env (tick s)) pod]>
           (podDeadlines s)
    /\ pausedPods s' = pausedPods s /\ apiWrites s' = apiWrites s.
Proof.
  cbv zeta. unfold rtpreemptive.PreFilter, rtpreemptive.latestOf.
  destruct (podLister env (Namespace pod0) (Name pod0)) as [latest|e];
    intros Hmarked; rewrite Hmarked; unfold bind; rewrite AddPodDeadline_run;
    cbv zeta; unfold ret; eexists; (split; [reflexivity|]);
    cbn [deadline.cache deadline.withCache podDeadlines withPodDeadlines];
    (split; [reflexivity|]);
    match goal with
    | |- context [afterLookup ?c ?p s] =>
        pose proof (onlyClock_fields _ _ (onlyClock_afterLookup c p s))
          as (_ & Hp & Ha & _)
    end; split; assumption.
Qed.

Lemma PreFilter_unmarked_pod_witness :
  let env := exampleEnv noPods [] in
  exists s' : State,
    rtpreemptive.PreFilter env idleManager arrivingPod emptyState = (Val None, s')
    /\ podDeadlines s' = {["uw"%string := 1000 + Minute]}
    /\ pausedPods s' = ∅ /\ apiWrites s' = [].
Proof.
  intros env.
  destruct (PreFilter_unmarked_pod env idleManager arrivingPod emptyState eq_refl)
    as (s' & Hrun & Hd & Hp & Ha).
  exists s'. split; [exact Hrun|]. split; [rewrite Hd; reflexivity|].
  split; assumption.
Defined.

(** X14 -- a pod marked paused is turned away without a resume attempt in
    two cases: when it is in the waiting set or pending, the hook returns
    [Skip] and nothing happened; when the lister has the pod and the
    preemption manager holds another pod (by UID) as the paused candidate of
    its node, the hook returns [UnschedulableAndUnresolvable] with its
    message, in the state the manager's lookup left. *)
Theorem PreFilter_paused_without_resume (env : Env)
    (preemptionManager : rtpreemptive.Manager) (pod0 : Pod) (s : State) :
  let pod := rtpreemptive.latestOf env pod0 in
  preemption.IsPodMarkedPaused pod = true ->
  (GetWaitingPod env (UID pod) = true \/ Phase pod = PodPending ->
   rtpreemptive.PreFilter env preemptionManager pod0 s = (Val (NewStatus Skip []), s))
  /\ (forall (c : preemption.Candidate) (s1 : State),
        podLister env (Namespace pod0) (Name pod0) = inl pod ->
        GetWaitingPod env (UID pod) = false -> Phase pod <> PodPending ->
        rtpreemptive.GetPausedCandidateOnNode preemptionManager (NodeName pod) s
        = (Val (Some c), s1) ->
        UID (preemption.Candidate_Pod c) <> UID pod ->
        rtpreemptive.PreFilter env preemptionManager pod0 s
        = (Val (NewStatus UnschedulableAndUnresolvable
                  ["rejected as another paused pod has higher priority"%string]), s1)).
Proof.
  cbv zeta. unfold rtpreemptive.PreFilter, rtpreemptive.latestOf.
  intros Hmarked. split.
  - intros Hskip.
    destruct (podLister env (Namespace pod0) (Name pod0)) as [latest|e];
      rewrite Hmarked;
      (destruct Hskip as [-> | ->]; [reflexivity|]);
      now rewrite orb_true_r.
  - intros c s1 Hlister Hwaiting Hphase Hfound Huid.
    destruct (podLister env (Namespace pod0) (Name pod0)) as [latest|e];
      [|discriminate].
    rewrite Hmarked, Hwaiting. cbn [orb].
    assert (Hnp : PodPhase_eqb (Phase latest) PodPending = false).
    { apply not_true_iff_false. now rewrite PodPhase_eqb_eq. }
    rewrite Hnp. unfold bind. rewrite Hfound.
    apply String.eqb_neq in Huid. now rewrite Huid.
Qed.

Lemma PreFilter_paused_without_resume_witness :
  let pending :=
    {| Namespace := "batch"; Name := "job-7"; UID := "u7";
       Annotations := Some {[preemption.AnnotationKeyPausePod := "true"%string]};
       CreationTimestamp := 1000; Priority := None; NodeName := "node-1";
       Phase := PodPending |} in
  let other := {| preemption.Candidate_NodeName := "node-1";
                  preemption.Candidate_Pod := pausedResident |} in
  let holder :=
    {| rtpreemptive.GetPausedCandidateOnNode := fun _ => ret (Some other);
       rtpreemptive.ResumeCandidate := fun c => ret (Some c, None);
       rtpreemptive.PauseCandidate := fun c => ret (Some c, None) |} in
  rtpreemptive.PreFilter (exampleEnv noPods []) idleManager pending emptyState
  = (Val (NewStatus Skip []), emptyState)
  /\ rtpreemptive.PreFilter (exampleEnv (fun _ _ => inl pausedPod) []) holder
       pausedPod emptyState
     = (Val (NewStatus UnschedulableAndUnresolvable
               ["rejected as another paused pod has higher priority"%string]),
        emptyState).
Proof.
  intros pending other holder. split.
  - apply (proj1 (PreFilter_paused_without_resume (exampleEnv noPods []) idleManager
                    pending emptyState eq_refl)).
    right. reflexivity.
  - apply (proj2 (PreFilter_paused_without_resume
                    (exampleEnv (fun _ _ => inl pausedPod) []) holder
                    pausedPod emptyState eq_refl) other emptyState);
      try reflexivity; discriminate.
Defined.

(** X15 -- a pod marked paused that reaches the resume attempt (the lister
    has it, it is not waiting and not pending, and the paused candidate of
    its node is itself or absent, in which case the pod is the candidate):
    the status follows the result of [ResumeCandidate]: [Skip] for
    [ErrPodNotPaused], [UnschedulableAndUnresolvable] for any other error,
    [Skip] with a message for a resumed candidate, and a panic when neither
    an error nor a candidate comes back. *)
Theorem PreFilter_resume_outcomes (env : Env) (preemptionManager : rtpreemptive.Manager)
    (pod0 latest : Pod) (s s1 s2 : State) (found : option preemption.Candidate)
    (resumed : option preemption.Candidate) (failure : option error) :
  let candidate :=
    match found with
    | Some c => c
    | None => {| preemption.Candidate_NodeName := NodeName latest;
                 preemption.Candidate_Pod := latest |}
    end in
  podLister env (Namespace pod0) (Name pod0) = inl latest ->
  preemption.IsPodMarkedPaused latest = true ->
  GetWaitingPod env (UID latest) = false -> Phase latest <> PodPending ->
  rtpreemptive.GetPausedCandidateOnNode preemptionManager (NodeName latest) s
  = (Val found, s1) ->
  UID (preemption.Candidate_Pod candidate) = UID latest ->
  rtpreemptive.ResumeCandidate preemptionManager candidate s1
  = (Val (resumed, failure), s2) ->
  rtpreemptive.PreFilter env preemptionManager pod0 s
  = (match failure with
     | Some ErrPodNotPaused => Val (NewStatus Skip [])
     | Some _ => Val (NewStatus UnschedulableAndUnresolvable [])
     | None =>
         match resumed with
         | Some _ =>
             Val (NewStatus Skip ["skipped because pod is resumed successfully"%string])
         | None => Panic nilDereference
         end
     end, s2).
Proof.
  cbv zeta. intros Hlister Hmarked Hwaiting Hphase Hfound Huid Hresume.
  unfold rtpreemptive.PreFilter. rewrite Hlister, Hmarked, Hwaiting. cbn [orb].
  assert (Hnp : PodPhase_eqb (Phase latest) PodPending = false).
  { apply not_true_iff_false. now rewrite PodPhase_eqb_eq. }
  rewrite Hnp. unfold bind at 1. rewrite Hfound.
  apply String.eqb_eq in Huid. rewrite Huid. cbn [negb].
  unfold bind. rewrite Hresume.
  destruct failure as [[| | |]|]; try reflexivity.
  destruct resumed; reflexivity.
Qed.

Lemma PreFilter_resume_outcomes_witness :
  let env := exampleEnv (fun _ _ => inl pausedPod) [] in
  let notPaused :=
    {| rtpreemptive.GetPausedCandidateOnNode := fun _ => ret None;
       rtpreemptive.ResumeCandidate := fun c => ret (None, Some ErrPodNotPaused);
       rtpreemptive.PauseCandidate := fun c => ret (Some c, None) |} in
  rtpreemptive.PreFilter env notPaused pausedPod emptyState
  = (Val (NewStatus Skip []), emptyState).
Proof.
  intros env notPaused.
  apply (PreFilter_resume_outcomes env notPaused pausedPod pausedPod
           emptyState emptyState emptyState None None (Some ErrPodNotPaused));
    try reflexivity; discriminate.
Defined.

(** ** Filter and paused residents *)

(** X16 -- paused residents do not count: the verdict of [Filter] for a pod
    on a node, and the state it leaves, are the same with and without a
    paused pod among the node's residents. *)
Theorem Filter_ignores_paused_residents (env : Env)
    (preemptionManager : rtpreemptive.Manager) (pod paused : Pod) (node : v1.Node)
    (before after : list Pod) (s : State) :
  Phase paused = PodPaused ->
  rtpreemptive.Filter env preemptionManager pod
    {| Node := node; Pods := before ++ paused :: after |} s
  = rtpreemptive.Filter env preemptionManager pod
      {| Node := node; Pods := before ++ after |} s.
Proof.
  intros Hphase. unfold rtpreemptive.Filter, rtpreemptive.resumePausedFirst.
  cbn [Node Pods]. rewrite !List.filter_app. cbn [List.filter].
  rewrite Hphase. reflexivity.
Qed.

Lemma Filter_ignores_paused_residents_witness :
  rtpreemptive.Filter (exampleEnv noPods []) idleManager arrivingPod
    {| Node := {| Node_Name := "node-1" |};
       Pods := [nonPreemptibleResident] ++ pausedResident :: [] |} emptyState
  = rtpreemptive.Filter (exampleEnv noPods []) idleManager arrivingPod
      {| Node := {| Node_Name := "node-1" |};
         Pods := [nonPreemptibleResident] ++ [] |} emptyState.
Proof.
  apply (Filter_ignores_paused_residents (exampleEnv noPods []) idleManager
           arrivingPod pausedResident {| Node_Name := "node-1" |}
           [nonPreemptibleResident] [] emptyState).
  reflexivity.
Defined.

(** ** Post-filter: the slackest resident and the nominated node *)

(** The first loop of [findCandidateOnNode] keeps the latest deadline seen:
    [dmax] is the initial [maxDDL] or the deadline reported for the
    candidate that is returned, and no eligible resident was reported with a
    later one. *)
Lemma scanResidents_maximal (env : Env) (pod : Pod) (podInfos : list Pod) :
  forall (maxDDL : Time) (candidatePod : option Pod) (unpausedPods : list Pod) (s : State),
  exists (found : option Pod) (s' : State) (dmax : Time),
    rtpreemptive.scanResidents env pod podInfos maxDDL candidatePod unpausedPods s
    = (Val (found,
            unpausedPods
            ++ List.filter (eligible pod) (List.map (rtpreemptive.latestOf env) podInfos)),
       s')
    /\ onlyClock s s'
    /\ maxDDL <= dmax
    /\ ((found = candidatePod /\ dmax = maxDDL)
        \/ exists c, found = Some c
                     /\ reported env (podDeadlines s) (tick s) (tick s') c dmax)
    /\ (forall p,
          In p (List.filter (eligible pod)
                  (List.map (rtpreemptive.latestOf env) podInfos)) ->
          exists d, reported env (podDeadlines s) (tick s) (tick s') p d /\ d <= dmax).
Proof.
  induction podInfos as [|podInfo rest IH]; intros maxDDL candidatePod unpausedPods s.
  - exists candidatePod, s, maxDDL. cbn. rewrite app_nil_r.
    split; [reflexivity|]. split; [apply onlyClock_refl|]. split; [lia|].
    split; [now left|]. intros p [].
  - cbn [rtpreemptive.scanResidents List.map List.filter].
    set (p := rtpreemptive.latestOf env podInfo).
    destruct (String.eqb (UID p) (UID pod)) eqn:Huid.
    { assert (Helig : eligible pod p = false) by (unfold eligible; now rewrite Huid).
      rewrite Helig. apply IH. }
    destruct (PodPhase_eqb (Phase p) PodPaused) eqn:Hphase; cbn [negb].
    { assert (Helig : eligible pod p = false)
        by (unfold eligible; rewrite Hphase; apply andb_false_r).
      rewrite Helig. apply IH. }
    assert (Helig : eligible pod p = true) by (unfold eligible; now rewrite Huid, Hphase).
    rewrite Helig.
    unfold bind at 1. rewrite GetPodDeadline_run. cbn [deadline.cache].
    set (ddl := deadlineAt env (podDeadlines s) (clock env (tick s)) p).
    set (s1 := afterLookup (podDeadlines s) p s).
    assert (Hclock1 : onlyClock s s1) by apply onlyClock_afterLookup.
    pose proof (onlyClock_fields _ _ Hclock1) as (Hle1 & _ & _ & _ & Hd1).
    destruct (After ddl maxDDL) eqn:Hafter.
    + destruct (IH ddl (Some p) (unpausedPods ++ [p]) s1)
        as (found & s' & dmax & Hrun & Hclock & Hmax & Hfound & Hall).
      pose proof (onlyClock_fields _ _ Hclock) as (Hle & _).
      apply Z.gtb_lt in Hafter. rewrite Hd1 in Hfound, Hall.
      exists found, s', dmax. rewrite Hrun, <- app_assoc.
      split; [reflexivity|]. split; [eapply onlyClock_trans; eassumption|].
      split; [lia|]. split.
      * right. destruct Hfound as [[-> ->]|(c & -> & Hrep)].
        -- exists p. split; [reflexivity|]. apply reported_now. lia.
        -- exists c. split; [reflexivity|].
           eapply reported_weaken; [| |exact Hrep]; lia.
      * intros q [<-|Hin].
        -- exists ddl. split; [apply reported_now; lia|lia].
        -- destruct (Hall q Hin) as (d & Hrep & Hd). exists d. split; [|exact Hd].
           eapply reported_weaken; [| |exact Hrep]; lia.
    + destruct (IH maxDDL candidatePod (unpausedPods ++ [p]) s1)
        as (found & s' & dmax & Hrun & Hclock & Hmax & Hfound & Hall).
      pose proof (onlyClock_fields _ _ Hclock) as (Hle & _).
      assert (Hnot : ddl <= maxDDL).
      { unfold After in Hafter. destruct (Z.gtb_spec ddl maxDDL); [discriminate|lia]. }
      rewrite Hd1 in Hfound, Hall.
      exists found, s', dmax. rewrite Hrun, <- app_assoc.
      split; [reflexivity|]. split; [eapply onlyClock_trans; eassumption|].
      split; [lia|]. split.
      * destruct Hfound as [Hsame|(c & -> & Hrep)]; [now left|right].
        exists c. split; [reflexivity|].
        eapply reported_weaken; [| |exact Hrep]; lia.
      * intros q [<-|Hin].
        -- exists ddl. split; [apply reported_now; lia|lia].
        -- destruct (Hall q Hin) as (d & Hrep & Hd). exists d. split; [|exact Hd].
           eapply reported_weaken; [| |exact Hrep]; lia.
Qed.

(** X17 -- only the slackest resident is considered: [findCandidateOnNode]
    always returns, and a resident it returns was reported with a deadline
    that no eligible resident of the node exceeds.  (When that resident does
    not free enough resources, no other resident is tried.) *)
Theorem findCandidateOnNode_slackest (env : Env) (pod : Pod) (nodeInfo : NodeInfo)
    (s : State) :
  exists (found : option Pod) (s' : State),
    rtpreemptive.findCandidateOnNode env pod nodeInfo s = (Val found, s')
    /\ forall c, found = Some c ->
         exists dC,
           reported env (podDeadlines s) (tick s) (tick s') c dC
           /\ forall p, In p (unpausedResidents env pod nodeInfo) ->
                exists dP,
                  reported env (podDeadlines s) (tick s) (tick s') p dP /\ dP <= dC.
Proof.
  unfold rtpreemptive.findCandidateOnNode. unfold bind at 1.
  rewrite GetPodDeadline_run. cbn [deadline.cache].
  set (podDDL := deadlineAt env (podDeadlines s) (clock env (tick s)) pod).
  set (s1 := afterLookup (podDeadlines s) pod s).
  assert (Hclock1 : onlyClock s s1) by apply onlyClock_afterLookup.
  pose proof (onlyClock_fields _ _ Hclock1) as (Hle1 & _ & _ & _ & Hd1).
  destruct (scanResidents_maximal env pod
              (Pods nodeInfo ++ NominatedPodsForNode env (Node_Name (Node nodeInfo)))
              podDDL None [] s1)
    as (found & s' & dmax & Hrun & Hclock & Hmax & Hfound & Hall).
  pose proof (onlyClock_fields _ _ Hclock) as (Hle & _).
  unfold bind at 1. rewrite Hrun. cbn [app].
  fold (residentsOf env nodeInfo) in *. fold (unpausedResidents env pod nodeInfo) in *.
  rewrite Hd1 in Hfound, Hall.
  destruct found as [c|]; [|exists None, s'; split; [reflexivity|discriminate]].
  destruct (Fits env pod _) as [|r rs];
    [|exists None, s'; split; [reflexivity|discriminate]].
  exists (Some c), s'. split; [reflexivity|].
  intros c' [= <-]. exists dmax.
  destruct Hfound as [[Hnone _]|(c' & [= <-] & Hrep)]; [discriminate|].
  split; [eapply reported_weaken; [| |exact Hrep]; lia|].
  intros p Hp. destruct (Hall p Hp) as (d & Hrepp & Hd). exists d. split; [|exact Hd].
  eapply reported_weaken; [| |exact Hrepp]; lia.
Qed.

Lemma findCandidateOnNode_slackest_witness :
  let env := exampleEnv noPods [node1] in
  exists dC,
    reported env ∅ 0 0 nonPreemptibleResident dC
    /\ forall p, In p (unpausedResidents env arrivingPod node1) ->
         exists dP, reported env ∅ 0 0 p dP /\ dP <= dC.
Proof.
  intros env.
  destruct (findCandidateOnNode_slackest env arrivingPod node1 emptyState)
    as (found & s' & Hrun & Hmax).
  assert (Heval : rtpreemptive.findCandidateOnNode env arrivingPod node1 emptyState
                  = (Val (Some nonPreemptibleResident), emptyState)) by reflexivity.
  rewrite Heval in Hrun. injection Hrun as <- <-.
  exact (Hmax nonPreemptibleResident eq_refl).
Defined.

Lemma findCandidateOnNode_eligible (env : Env) (pod : Pod) (nodeInfo : NodeInfo)
    (s : State) :
  exists (found : option Pod) (s' : State),
    rtpreemptive.findCandidateOnNode env pod nodeInfo s = (Val found, s')
    /\ onlyClock s s'
    /\ forall c, found = Some c -> In c (unpausedResidents env pod nodeInfo).
Proof.
  unfold rtpreemptive.findCandidateOnNode. unfold bind at 1.
  rewrite GetPodDeadline_run. cbn [deadline.cache].
  set (podDDL := deadlineAt env (podDeadlines s) (clock env (tick s)) pod).
  set (s1 := afterLookup (podDeadlines s) pod s).
  assert (Hclock1 : onlyClock s s1) by apply onlyClock_afterLookup.
  destruct (scanResidents_outcome env pod
              (Pods nodeInfo ++ NominatedPodsForNode env (Node_Name (Node nodeInfo)))
              podDDL None [] s1)
    as (found & s' & Hrun & Hclock & Hfound & _).
  unfold bind at 1. rewrite Hrun. cbn [app].
  fold (residentsOf env nodeInfo) in *. fold (unpausedResidents env pod nodeInfo) in *.
  assert (Hclock' : onlyClock s s') by (eapply onlyClock_trans; eassumption).
  destruct found as [c|];
    [|exists None, s'; split; [reflexivity|]; split; [exact Hclock'|discriminate]].
  destruct (Fits env pod _) as [|r rs];
    [|exists None, s'; split; [reflexivity|]; split; [exact Hclock'|discriminate]].
  exists (Some c), s'. split; [reflexivity|]. split; [exact Hclock'|].
  intros c' [= <-].
  destruct (Hfound c eq_refl) as [Hold|[Hin _]]; [discriminate|exact Hin].
Qed.

(** The loop of [PostFilter] over the nodes: a candidate it adds names a
    node that is not marked unresolvable and holds an eligible resident of
    that node; it adds none when every node is marked unresolvable or has no
    eligible resident. *)
Lemma collectCandidates_outcome (env : Env) (pod : Pod)
    (filteredNodeStatusMap : gmap string StatusT) (allNode : list NodeInfo) :
  forall (candidates : list preemption.Candidate) (s : State),
  exists (collected : list preemption.Candidate) (s' : State),
    rtpreemptive.collectCandidates env pod filteredNodeStatusMap allNode candidates s
    = (Val collected, s')
    /\ onlyClock s s'
    /\ (forall c, In c collected ->
          In c candidates
          \/ exists nodeInfo,
               In nodeInfo allNode
               /\ Status_Code (filteredNodeStatusMap !! Node_Name (Node nodeInfo))
                  <> UnschedulableAndUnresolvable
               /\ preemption.Candidate_NodeName c = Node_Name (Node nodeInfo)
               /\ In (preemption.Candidate_Pod c) (unpausedResidents env pod nodeInfo))
    /\ ((forall nodeInfo, In nodeInfo allNode ->
            Status_Code (filteredNodeStatusMap !! Node_Name (Node nodeInfo))
            = UnschedulableAndUnresolvable
            \/ unpausedResidents env pod nodeInfo = []) ->
        collected = candidates).
Proof.
  induction allNode as [|nodeInfo rest IH]; intros candidates s.
  - exists candidates, s. split; [reflexivity|]. split; [apply onlyClock_refl|].
    split; [now left|reflexivity].
  - cbn [rtpreemptive.collectCandidates].
    assert (Hskip :
      exists collected s',
        rtpreemptive.collectCandidates env pod filteredNodeStatusMap rest candidates s
        = (Val collected, s')
        /\ onlyClock s s'
        /\ (forall c, In c collected ->
              In c candidates
              \/ exists ni,
                   In ni (nodeInfo :: rest)
                   /\ Status_Code (filteredNodeStatusMap !! Node_Name (Node ni))
                      <> UnschedulableAndUnresolvable
                   /\ preemption.Candidate_NodeName c = Node_Name (Node ni)
                   /\ In (preemption.Candidate_Pod c) (unpausedResidents env pod ni))
        /\ ((forall ni, In ni (nodeInfo :: rest) ->
                Status_Code (filteredNodeStatusMap !! Node_Name (Node ni))
                = UnschedulableAndUnresolvable
                \/ unpausedResidents env pod ni = []) ->
            collected = candidates)).
    { destruct (IH candidates s) as (collected & s' & Hrun & Hclock & Hin & Hnone).
      exists collected, s'. split; [exact Hrun|]. split; [exact Hclock|]. split.
      - intros c Hc. destruct (Hin c Hc) as [Hold|(ni & Hni & Hrest)]; [now left|].
        right. exists ni. split; [now right|exact Hrest].
      - intros Hall. apply Hnone. intros ni Hni. apply Hall. now right. }
    destruct (findCandidateOnNode_eligible env pod nodeInfo s)
      as (found & s1 & Hfind & Hclock1 & Helig).
    assert (Htry :
      exists collected s',
        (found0 <- rtpreemptive.findCandidateOnNode env pod nodeInfo ;;
         match found0 with
         | Some candidate =>
             rtpreemptive.collectCandidates env pod filteredNodeStatusMap rest
               (candidates ++ [{| preemption.Candidate_NodeName := Node_Name (Node nodeInfo);
                                  preemption.Candidate_Pod := candidate |}])
         | None =>
             rtpreemptive.collectCandidates env pod filteredNodeStatusMap rest candidates
         end) s = (Val collected, s')
        /\ onlyClock s s'
        /\ (forall c, In c collected ->
              In c candidates
              \/ (Status_Code (filteredNodeStatusMap !! Node_Name (Node nodeInfo))
                  <> UnschedulableAndUnresolvable ->
                  exists ni,
                    In ni (nodeInfo :: rest)
                    /\ Status_Code (filteredNodeStatusMap !! Node_Name (Node ni))
                       <> UnschedulableAndUnresolvable
                    /\ preemption.Candidate_NodeName c = Node_Name (Node ni)
                    /\ In (preemption.Candidate_Pod c) (unpausedResidents env pod ni)))
        /\ (unpausedResidents env pod nodeInfo = [] ->
            (forall ni, In ni rest ->
                Status_Code (filteredNodeStatusMap !! Node_Name (Node ni))
                = UnschedulableAndUnresolvable
                \/ unpausedResidents env pod ni = []) ->
            collected = candidates)).
    { unfold bind at 1. rewrite Hfind. destruct found as [victim|].
      - destruct (IH (candidates
                      ++ [{| preemption.Candidate_NodeName := Node_Name (Node nodeInfo);
                             preemption.Candidate_Pod := victim |}]) s1)
          as (collected & s' & Hrun & Hclock & Hin & _).
        exists collected, s'. split; [exact Hrun|].
        split; [eapply onlyClock_trans; eassumption|]. split.
        + intros c Hc. destruct (Hin c Hc) as [Hold|(ni & Hni & Hcode & Hrest)].
          * apply in_app_iff in Hold. destruct Hold as [Hold|[<-|[]]]; [now left|].
            right. intros Hcode. exists nodeInfo. split; [now left|].
            split; [exact Hcode|]. split; [reflexivity|]. now apply Helig.
          * right. intros _. exists ni. split; [now right|]. split; assumption.
        + intros Hempty _. specialize (Helig victim eq_refl).
          rewrite Hempty in Helig. contradiction.
      - destruct (IH candidates s1) as (collected & s' & Hrun & Hclock & Hin & Hnone).
        exists collected, s'. split; [exact Hrun|].
        split; [eapply onlyClock_trans; eassumption|]. split.
        + intros c Hc. destruct (Hin c Hc) as [Hold|(ni & Hni & Hrest)]; [now left|].
          right. intros _. exists ni. split; [now right|exact Hrest].
        + intros _ Hall. now apply Hnone. }
    destruct (Status_Code (filteredNodeStatusMap !! Node_Name (Node nodeInfo))) eqn:Hcode;
      try exact Hskip;
      destruct Htry as (collected & s' & Hrun & Hclock & Hin & Hnone);
      exists collected, s';
      (split; [exact Hrun|]); (split; [exact Hclock|]);
      (split;
       [intros c Hc; destruct (Hin c Hc) as [Hold|Hnew];
        [now left|right; apply Hnew; congruence]
       |intros Hall; apply Hnone;
        [destruct (Hall nodeInfo (or_introl eq_refl)) as [Hbad|Hempty];
         [congruence|exact Hempty]
        |intros ni Hni; apply Hall; now right]]).
Qed.

Lemma selectCandidate_member (env : Env) (candidates : list preemption.Candidate)
    (s : State) :
  exists (selected : option preemption.Candidate) (s' : State),
    rtpreemptive.selectCandidate env candidates s = (Val selected, s')
    /\ onlyClock s s'
    /\ match selected with
       | Some best => In best candidates
       | None => candidates = []
       end.
Proof.
  destruct candidates as [|first rest].
  - exists None, s. split; [reflexivity|]. split; [apply onlyClock_refl|reflexivity].
  - unfold rtpreemptive.selectCandidate. unfold bind at 1.
    rewrite GetPodDeadline_run. cbn [deadline.cache].
    set (maxDDL := deadlineAt env (podDeadlines s) (clock env (tick s))
                     (preemption.Candidate_Pod first)).
    set (s1 := afterLookup (podDeadlines s) (preemption.Candidate_Pod first) s).
    assert (Hclock1 : onlyClock s s1) by apply onlyClock_afterLookup.
    destruct (selectLoop_outcome env (first :: rest) maxDDL first s1)
      as (best & s' & d' & Hrun & Hclock & _ & Hbest & _).
    unfold bind at 1. rewrite Hrun. exists (Some best), s'.
    split; [reflexivity|]. split; [eapply onlyClock_trans; eassumption|].
    destruct Hbest as [[-> _]|[Hin _]]; [now left|exact Hin].
Qed.

(** X18 -- what a nomination means: when [PostFilter] returns a nominated
    node, the status is success, the node is one of the listed nodes that
    the filter did not mark [UnschedulableAndUnresolvable], and
    [PauseCandidate] returned without error for an eligible resident of that
    node (another pod than the one being scheduled, not paused), in a state
    that differs from the initial one by clock readings only. *)
Theorem PostFilter_nominates (env : Env) (preemptionManager : rtpreemptive.Manager)
    (pod : Pod) (filteredNodeStatusMap : gmap string StatusT) (allNode : list NodeInfo)
    (s s' : State) (result : PostFilterResult) (status : option StatusT) :
  NodeInfosList env = inl allNode ->
  rtpreemptive.PostFilter env preemptionManager pod filteredNodeStatusMap s
  = (Val (Some result, status), s') ->
  status = NewStatus Success []
  /\ exists (nodeInfo : NodeInfo) (victim : Pod) (s1 : State)
            (paused : option preemption.Candidate),
       In nodeInfo allNode
       /\ Status_Code (filteredNodeStatusMap !! Node_Name (Node nodeInfo))
          <> UnschedulableAndUnresolvable
       /\ NominatedNodeName result = Node_Name (Node nodeInfo)
       /\ In victim (unpausedResidents env pod nodeInfo)
       /\ onlyClock s s1
       /\ rtpreemptive.PauseCandidate preemptionManager
            {| preemption.Candidate_NodeName := Node_Name (Node nodeInfo);
               preemption.Candidate_Pod := victim |} s1
          = (Val (paused, None), s').
Proof.
  intros Hlist. unfold rtpreemptive.PostFilter. rewrite Hlist.
  destruct (collectCandidates_outcome env pod filteredNodeStatusMap allNode [] s)
    as (collected & s1 & Hcollect & Hclock1 & Hin & _).
  unfold bind at 1. rewrite Hcollect.
  destruct (selectCandidate_member env collected s1)
    as (selected & s2 & Hselect & Hclock2 & Hmember).
  unfold bind at 1. rewrite Hselect.
  destruct selected as [best|]; [|discriminate].
  unfold bind.
  destruct (rtpreemptive.PauseCandidate preemptionManager best s2)
    as [[[paused failure]|msg] s3] eqn:Hpause; [|discriminate].
  cbn [snd]. destruct failure as [e|]; [discriminate|].
  intros [= <- <- <-]. split; [reflexivity|].
  destruct (Hin best Hmember) as [[]|(nodeInfo & Hnode & Hcode & Hname & Hvictim)].
  exists nodeInfo, (preemption.Candidate_Pod best), s2, paused.
  split; [exact Hnode|]. split; [exact Hcode|].
  split; [exact Hname|]. split; [exact Hvictim|].
  split; [eapply onlyClock_trans; eassumption|].
  rewrite <- Hname. destruct best. exact Hpause.
Qed.

Lemma PostFilter_nominates_witness :
  let env := exampleEnv noPods [node1] in
  exists (nodeInfo : NodeInfo) (victim : Pod),
    In nodeInfo [node1]
    /\ "node-1"%string = Node_Name (Node nodeInfo)
    /\ In victim (unpausedResidents env arrivingPod nodeInfo).
Proof.
  intros env.
  assert (Heval : rtpreemptive.PostFilter env idleManager arrivingPod ∅ emptyState
                  = (Val (Some (NewPostFilterResultWithNominatedNode "node-1"),
                          NewStatus Success []), emptyState)) by reflexivity.
  destruct (PostFilter_nominates env idleManager arrivingPod ∅ [node1]
              emptyState emptyState
              (NewPostFilterResultWithNominatedNode "node-1")
              (NewStatus Success []) eq_refl Heval)
    as (_ & nodeInfo & victim & s1 & paused & Hnode & _ & Hname & Hvictim & _).
  exists nodeInfo, victim. split; [exact Hnode|]. split; [exact Hname|exact Hvictim].
Defined.

(** X19 -- [PostFilter] without a candidate: when the node list cannot be
    read, the error is the status; when every listed node is marked
    [UnschedulableAndUnresolvable] by the filter or has no eligible resident
    (in particular when there is no node), the status is
    [UnschedulableAndUnresolvable] with its message.  In both cases nothing
    is nominated and the preemption manager is not called: the state
    differs by clock readings at most. *)
Theorem PostFilter_without_candidates (env : Env)
    (preemptionManager : rtpreemptive.Manager) (pod : Pod)
    (filteredNodeStatusMap : gmap string StatusT) (s : State) :
  (forall e, NodeInfosList env = inr e ->
     rtpreemptive.PostFilter env preemptionManager pod filteredNodeStatusMap s
     = (Val (None, AsStatus e), s))
  /\ (forall allNode, NodeInfosList env = inl allNode ->
        (forall nodeInfo, In nodeInfo allNode ->
            Status_Code (filteredNodeStatusMap !! Node_Name (Node nodeInfo))
            = UnschedulableAndUnresolvable
            \/ unpausedResidents env pod nodeInfo = []) ->
        exists s' : State,
          rtpreemptive.PostFilter env preemptionManager pod filteredNodeStatusMap s
          = (Val (None, NewStatus UnschedulableAndUnresolvable
                          ["no preemptible candidates found"%string]), s')
          /\ onlyClock s s').
Proof.
  unfold rtpreemptive.PostFilter. split.
  - intros e ->. reflexivity.
  - intros allNode -> Hall.
    destruct (collectCandidates_outcome env pod filteredNodeStatusMap allNode [] s)
      as (collected & s1 & Hcollect & Hclock1 & _ & Hnone).
    rewrite (Hnone Hall) in Hcollect.
    unfold bind at 1. rewrite Hcollect. exists s1. split; [reflexivity|exact Hclock1].
Qed.

Lemma PostFilter_without_candidates_witness :
  let env := exampleEnv noPods [node1] in
  let rejected : gmap string StatusT :=
    {["node-1"%string := {| code := UnschedulableAndUnresolvable; reasons := [];
                            err := None |}]} in
  exists s' : State,
    rtpreemptive.PostFilter env idleManager arrivingPod rejected emptyState
    = (Val (None, NewStatus UnschedulableAndUnresolvable
                    ["no preemptible candidates found"%string]), s').
Proof.
  intros env rejected.
  destruct (proj2 (PostFilter_without_candidates env idleManager arrivingPod rejected
                     emptyState) [node1] eq_refl) as (s' & Hrun & _).
  - intros nodeInfo [<-|[]]. left. reflexivity.
  - exists s'. exact Hrun.
Defined.

(** ** The padded feature vector *)

(** X20 -- the size of the padded vector for a metric size above four: it
    holds at least four elements; it has the metric size exactly for five
    input features, one element more for fewer than five, and fewer
    elements than the metric size for more than five. *)
Theorem padMetrics_size (msize : Z) (metrics : list float) :
  4 < msize ->
  let size := Z.of_nat (length metrics) in
  let padded := Z.of_nat (length (predictor.padMetrics msize metrics)) in
  4 <= padded
  /\ (padded = msize <-> size = 5)
  /\ (size < 5 -> padded = msize + 1)
  /\ (5 < size -> padded < msize).
Proof.
  intros Hmsize. cbv zeta. rewrite padMetrics_length. lia.
Qed.

Lemma padMetrics_size_witness :
  4 <= Z.of_nat (length (predictor.padMetrics PredictorMetricSize [1%float]))
  /\ Z.of_nat (length (predictor.padMetrics PredictorMetricSize [1%float]))
     = PredictorMetricSize + 1.
Proof.
  destruct (padMetrics_size PredictorMetricSize [1%float]) as (Hmin & _ & Hfew & _);
    [reflexivity|].
  split; [exact Hmin|]. apply Hfew. reflexivity.
Defined.

(** X21 -- the content of the padded vector: its first elements are the
    input features, at most four of them, in order, and every element after
    them is zero; for a non-negative metric size it is never empty, so that
    taking the address of its first element does not panic. *)
Theorem padMetrics_content (msize : Z) (metrics : list float) :
  let kept := Nat.min 4 (length metrics) in
  (forall i, (i < kept)%nat ->
     nth_error (predictor.padMetrics msize metrics) i = nth_error metrics i)
  /\ (forall i, (kept <= i < length (predictor.padMetrics msize metrics))%nat ->
        nth_error (predictor.padMetrics msize metrics) i = Some 0%float)
  /\ (0 <= msize -> predictor.padMetrics msize metrics <> []).
Proof.
  cbv zeta. rewrite padMetrics_shape.
  set (kept := Nat.min 4 (length metrics)).
  assert (Hkept : length (firstn kept metrics) = kept).
  { rewrite length_firstn. subst kept. lia. }
  split; [|split].
  - intros i Hi. rewrite nth_error_app1 by lia. rewrite nth_error_firstn.
    apply Nat.ltb_lt in Hi. now rewrite Hi.
  - intros i [Hlo Hhi]. rewrite length_app, repeat_length, Hkept in Hhi.
    rewrite nth_error_app2 by lia. rewrite Hkept.
    apply nth_error_repeat. lia.
  - intros Hmsize Hnil. apply (f_equal (@length float)) in Hnil.
    rewrite length_app, repeat_length, Hkept in Hnil. simpl in Hnil.
    subst kept. lia.
Qed.

Lemma padMetrics_content_witness :
  predictor.padMetrics PredictorMetricSize sixFeatures <> [].
Proof.
  apply (proj2 (proj2 (padMetrics_content PredictorMetricSize sixFeatures))).
  discriminate.
Defined.

(** ** The features of a pod *)

Section PodFeatures.
Context (ParseDuration : string -> option Duration)
        (ParseFloat : string -> float)
        (Atoi : string -> Z)
        (float64 : Z -> float)
        (cpuRequest memoryRequest cpuLimit memoryLimit : Pod -> float).

Abbreviation getPodMetrics :=
  (laxity.getPodMetrics ParseDuration ParseFloat Atoi float64
     cpuRequest memoryRequest cpuLimit memoryLimit) (only parsing).

Lemma getPodAdditionalMetrics_length (pod : Pod) :
  length (laxity.getPodAdditionalMetrics ParseFloat pod)
  = match index (Annotations pod) annotations.AnnotationKeyATLASMetrics with
    | Some metricsStr => S (Count metricsStr ",")
    | None => 0%nat
    end.
Proof.
  unfold laxity.getPodAdditionalMetrics.
  destruct (index (Annotations pod) annotations.AnnotationKeyATLASMetrics); [|reflexivity].
  now rewrite length_map, length_Split.
Qed.

Lemma getPodMetrics_length (pod : Pod) :
  length (getPodMetrics pod)
  = (5
     + match ParseDuration (laxity.annotation pod annotations.AnnotationKeyDDL) with
       | Some _ => 1
       | None => 0
       end
     + match index (Annotations pod) annotations.AnnotationKeyATLASMetrics with
       | Some metricsStr => S (Count metricsStr ",")
       | None => 0
       end)%nat.
Proof.
  unfold laxity.getPodMetrics.
  rewrite !length_app, getPodAdditionalMetrics_length.
  destruct (ParseDuration (laxity.annotation pod annotations.AnnotationKeyDDL));
    rewrite ?length_app; simpl; lia.
Qed.

(** X22 -- the number of features of a pod: the four resource quantities and
    the job index, one more when the deadline annotation parses as a
    duration, and one per comma-separated token of the metrics annotation
    when it is present (one token even for an empty value); so at least
    five, and the first four are the resource quantities. *)
Theorem getPodMetrics_features (pod : Pod) :
  length (getPodMetrics pod)
  = (5
     + match ParseDuration (laxity.annotation pod annotations.AnnotationKeyDDL) with
       | Some _ => 1
       | None => 0
       end
     + match index (Annotations pod) annotations.AnnotationKeyATLASMetrics with
       | Some metricsStr => S (Count metricsStr ",")
       | None => 0
       end)%nat
  /\ (5 <= length (getPodMetrics pod))%nat
  /\ firstn 4 (getPodMetrics pod)
     = [cpuRequest pod; memoryRequest pod; cpuLimit pod; memoryLimit pod].
Proof.
  split; [apply getPodMetrics_length|]. split; [rewrite getPodMetrics_length; lia|].
  unfold laxity.getPodMetrics.
  destruct (ParseDuration (laxity.annotation pod annotations.AnnotationKeyDDL));
    reflexivity.
Qed.

(** X23 -- the vector handed to the solver: the padded features of a pod
    have [PredictorMetricSize] elements exactly when the pod has neither a
    deadline annotation that parses nor a metrics annotation; for every
    other pod the vector is shorter than the solver's size, and it always
    starts with the four resource quantities. *)
Theorem padded_pod_metrics_size (pod : Pod) :
  let padded := predictor.padMetrics PredictorMetricSize (getPodMetrics pod) in
  let plain :=
    ParseDuration (laxity.annotation pod annotations.AnnotationKeyDDL) = None
    /\ index (Annotations pod) annotations.AnnotationKeyATLASMetrics = None in
  (Z.of_nat (length padded) = PredictorMetricSize <-> plain)
  /\ (~ plain -> Z.of_nat (length padded) < PredictorMetricSize)
  /\ firstn 4 padded
     = [cpuRequest pod; memoryRequest pod; cpuLimit pod; memoryLimit pod].
Proof.
  cbv zeta. rewrite padMetrics_length, padMetrics_shape, getPodMetrics_length.
  unfold PredictorMetricSize.
  split; [|split].
  - destruct (ParseDuration (laxity.annotation pod annotations.AnnotationKeyDDL));
      destruct (index (Annotations pod) annotations.AnnotationKeyATLASMetrics);
      split; try lia; try (intros [? ?]; discriminate); intros _; split; reflexivity.
  - destruct (ParseDuration (laxity.annotation pod annotations.AnnotationKeyDDL));
      destruct (index (Annotations pod) annotations.AnnotationKeyATLASMetrics);
      intros Hnot; try lia.
    exfalso. apply Hnot. split; reflexivity.
  - unfold laxity.getPodMetrics.
    destruct (ParseDuration (laxity.annotation pod annotations.AnnotationKeyDDL));
      reflexivity.
Qed.
End PodFeatures.

Lemma padded_pod_metrics_size_witness :
  Z.of_nat
    (length
       (predictor.padMetrics PredictorMetricSize
          (laxity.getPodMetrics exampleParseDuration (fun _ => 0%float) (fun _ => 0)
             (fun _ => 0%float) (fun _ => 1%float) (fun _ => 1%float)
             (fun _ => 1%float) (fun _ => 1%float) nonPreemptibleResident)))
  < PredictorMetricSize.
Proof.
  apply (proj1 (proj2 (padded_pod_metrics_size exampleParseDuration (fun _ => 0%float)
                         (fun _ => 0) (fun _ => 0%float) (fun _ => 1%float)
                         (fun _ => 1%float) (fun _ => 1%float) (fun _ => 1%float)
                         nonPreemptibleResident))).
  intros [Hparse _]. vm_compute in Hparse. discriminate Hparse.
Defined.

(** ** Pausing and resuming a resident *)

Lemma parseCacheKey_of_key (namespace name : string) :
  Contains namespace "/" = false -> Contains name "/" = false ->
  preemption.parseCacheKey (namespace ++ "/" ++ name) = (namespace, name).
Proof.
  intros Hns Hname. unfold preemption.parseCacheKey.
  apply Contains_false in Hns. apply Contains_false in Hname.
  change ("/" ++ name)%string with (String "/" name).
  now rewrite (Split_append _ _ _ Hns), (Split_without_sep _ _ Hname).
Qed.

(** X24 -- pause, then resume.  Let the paused map be empty, the resident's
    namespace and name hold no slash, the lister return the resident (with
    an annotation map) under that name, the store accept both writes and
    the node lister know the node; let the deadline manager hold the
    resident's deadline and a deadline of the trigger pod that is not
    earlier.  Then [PauseCandidate] followed by [ResumePausedPod] for the
    trigger returns the candidate of the same node with the pod marked
    [pause-pod = false], leaves the paused map empty again, forgets the
    resident's deadline, and has written the pod twice: marked paused, then
    marked resumed. *)
Theorem pause_then_resume (env : Env) (resident latest W : Pod) (nodeName : string)
    (node : v1.Node) (entries : gmap string string) (dR dW : Time) (s : State) :
  let key := preemption.toCacheKey resident in
  let candidate := {| preemption.Candidate_NodeName := nodeName;
                      preemption.Candidate_Pod := resident |} in
  Contains (Namespace resident) "/" = false ->
  Contains (Name resident) "/" = false ->
  podLister env (Namespace resident) (Name resident) = inl latest ->
  (Namespace latest, Name latest, UID latest)
  = (Namespace resident, Name resident, UID resident) ->
  Annotations latest = Some entries ->
  Update env (withPauseFlag "true" latest entries) = None ->
  Update env (withPauseFlag "false" latest entries) = None ->
  nodeLister env nodeName = inl node ->
  pausedPods s = ∅ ->
  rangeOrder env {[key := nodeName]} = [key] ->
  ownPodDeadlines s !! UID latest = Some dR ->
  ownPodDeadlines s !! UID W = Some dW ->
  dR <= dW ->
  exists s1 s2 : State,
    preemption.PauseCandidate env candidate s = (Val None, s1)
    /\ pausedPods s1 = {[key := nodeName]}
    /\ preemption.ResumePausedPod env W s1
       = (Val (Some {| preemption.Candidate_NodeName := Node_Name node;
                       preemption.Candidate_Pod := withPauseFlag "false" latest entries |}),
          s2)
    /\ pausedPods s2 = ∅
    /\ ownPodDeadlines s2 !! UID latest = None
    /\ apiWrites s2
       = withPauseFlag "false" latest entries
         :: withPauseFlag "true" latest entries :: apiWrites s.
Proof.
  cbv zeta.
  intros Hns Hname Hlister [= Hlns Hlname Hluid] Hann Hpause Hresume Hnode Hempty
    Horder HdR HdW Hle.
  set (candidate := {| preemption.Candidate_NodeName := nodeName;
                       preemption.Candidate_Pod := resident |}).
  rewrite (PauseCandidate_run env candidate s latest entries Hlister Hann Hpause).
  destruct (AddPausedPod_run env candidate
              (withApiWrites (withPauseFlag "true" latest entries :: apiWrites s) s))
    as (s1 & Hadd & Hp1 & Ho1 & Ha1 & _).
  rewrite Hadd. cbn [snd]. cbn in Hp1, Ho1, Ha1.
  rewrite Hempty in Hp1.
  assert (Hkey : preemption.toCacheKey latest = preemption.toCacheKey resident).
  { unfold preemption.toCacheKey. now rewrite Hlns, Hlname. }
  assert (Hd : deadlineAt env (ownPodDeadlines s) (clock env (tick s)) resident = dR).
  { apply deadlineAt_cached. rewrite <- Hluid. exact HdR. }
  rewrite Hd in Ho1.
  assert (Hc1R : ownPodDeadlines s1 !! UID latest = Some dR).
  { rewrite Ho1, Hluid. apply lookup_insert_eq. }
  assert (Hc1W : ownPodDeadlines s1 !! UID W = Some dW).
  { rewrite Ho1. destruct (decide (UID resident = UID W)) as [Hu|Hu].
    - rewrite <- Hu, lookup_insert_eq. rewrite <- Hu, <- Hluid in HdW. congruence.
    - now rewrite lookup_insert_ne. }
  exists s1. eexists. split; [reflexivity|]. split; [exact Hp1|].
  unfold preemption.ResumePausedPod, bind at 1, gets.
  change (insert (preemption.toCacheKey resident) nodeName ∅)
    with ({[preemption.toCacheKey resident := nodeName]} : gmap string string) in Hp1.
  rewrite Hp1, Horder. cbn [preemption.resumeScan].
  unfold preemption.toCacheKey at 1.
  rewrite (parseCacheKey_of_key _ _ Hns Hname), Hlister.
  unfold bind at 1. rewrite GetPodDeadline_run. cbn [deadline.cache].
  rewrite (deadlineAt_cached _ _ _ _ _ Hc1R), (afterLookup_cached _ _ _ _ Hc1R).
  unfold bind at 1. rewrite GetPodDeadline_run. cbn [deadline.cache].
  rewrite (deadlineAt_cached _ _ _ _ _ Hc1W), (afterLookup_cached _ _ _ _ Hc1W).
  assert (Hnb : Before dW dR = false) by (apply Z.ltb_ge; lia).
  rewrite Hnb.
  unfold bind at 1. rewrite GetPausedPodNode_run, Hkey, Hp1, lookup_singleton_eq, Hnode.
  unfold bind at 1. unfold preemption.markPodToResume. rewrite Hann. unfold ret at 1.
  fold (withPauseFlag "false" latest entries).
  unfold bind at 1. rewrite updatePod_run, Hresume.
  unfold bind, preemption.RemovePausedPod, deadline.RemovePodDeadline, modify, ret.
  split; [reflexivity|].
  cbn. rewrite Hp1, Ha1.
  change (preemption.toCacheKey (withPauseFlag "false" latest entries))
    with (preemption.toCacheKey latest).
  rewrite Hkey. split; [apply delete_singleton_eq|].
  split; [apply lookup_delete_eq|reflexivity].
Qed.

Lemma pause_then_resume_witness :
  let env := exampleEnv (fun _ _ => inl nonPreemptibleResident) [node1] in
  let entries : gmap string string :=
    <[annotations.AnnotationKeyPreemptible := "false"%string]>
      {[deadline.AnnotationKeyDDL := "1h"%string]} in
  let s := withOwnPodDeadlines (<["ur"%string := 100]> {["ut"%string := 200]})
             emptyState in
  exists s1 s2 : State,
    preemption.PauseCandidate env
      {| preemption.Candidate_NodeName := "node-1";
         preemption.Candidate_Pod := nonPreemptibleResident |} s = (Val None, s1)
    /\ pausedPods s1 = {["batch/resident"%string := "node-1"%string]}
    /\ preemption.ResumePausedPod env triggerPod s1
       = (Val (Some {| preemption.Candidate_NodeName := "node-1";
                       preemption.Candidate_Pod :=
                         withPauseFlag "false" nonPreemptibleResident entries |}), s2)
    /\ pausedPods s2 = ∅
    /\ ownPodDeadlines s2 !! "ur"%string = None
    /\ apiWrites s2
       = [withPauseFlag "false" nonPreemptibleResident entries;
          withPauseFlag "true" nonPreemptibleResident entries].
Proof.
  intros env entries s.
  apply (pause_then_resume env nonPreemptibleResident nonPreemptibleResident triggerPod
           "node-1" {| Node_Name := "node-1" |} entries 100 200 s);
    try reflexivity.
  discriminate.
Defined.
